(** * soweego: reconciliation checker, post-classification rules, evaluation guard

    A shallow embedding of the decision logic of
    - [soweego/validator/checks.py]  ([_assess]),
    - [soweego/linker/classify.py]   ([_add_missing_feature_columns],
      [_zero_when_not_exact_match], [_post_classification_blocking],
      [_one_when_wikidata_link_correct], the threshold-and-deduplicate
      step of [execute]),
    - [soweego/linker/evaluate.py]   ([nested_k_fold_with_grid_search]),
    followed by the properties of the specification that concern them.

    Python dictionaries and sets are finite maps and finite sets, pandas
    frames are keyed collections of columns, a [str] is the string of
    its UTF-8 bytes, exceptions are the left summand of a sum type, and
    calls to collaborators outside the repository are recorded on a
    trace. *)

From Stdlib Require Import Ascii QArith Qcanon.
From stdpp Require Import gmap strings list fin_maps pretty.

(* [naive_solver] and [set_solver] clear hypotheses that are already gone. *)
#[local] Set Warnings "-clear-no-such-hyp".

(* ===================================================================== *)
(** * Definitions *)
(* ===================================================================== *)

(** ** Python exceptions raised by the embedded code *)

Inductive exn :=
  | ValueError (msg : string)
  | AttributeError (msg : string)
  | KeyError (key : string)
  | TypeError (msg : string)
  | NotImplementedError (msg : string).

Definition result (A : Type) : Type := exn + A.

Definition raise {A} (e : exn) : result A := inl e.
Definition ok {A} (a : A) : result A := inr a.

Definition bind {A B} (c : result A) (k : A → result B) : result B :=
  match c with
  | inl e => inl e
  | inr a => k a
  end.

Notation "'let*' x ':=' c 'in' k" := (bind c (λ x, k))
  (at level 10, x pattern, c at level 200, k at level 200).

(** A [for] loop whose body may raise: the first exception stops it. *)
Fixpoint for_each {A S} (body : S → A → result S) (s : S) (l : list A) : result S :=
  match l with
  | [] => ok s
  | x :: l => let* s' := body s x in for_each body s' l
  end.

(* --------------------------------------------------------------------- *)
(** ** validator/checks.py *)
(* --------------------------------------------------------------------- *)

(** The value stored under a QID in the aggregated Wikidata dictionary:
    [data['identifiers']] is always there ([_gather_identifiers] creates
    it), [data.get('links')] is [None] until [_gather_wikidata_links]
    finds a link. *)
Record wikidata_item := WikidataItem {
  identifiers : gset string;
  links : option (gset string);
}.

(** [to_deprecate] and [to_add] are [defaultdict(set)]: reading a missing
    key gives the empty set, [d[k].add(x)] and [d[k].update(xs)] create
    the key. *)
Definition get_set (d : gmap string (gset string)) (k : string) : gset string :=
  default ∅ (d !! k).

Definition defaultdict_add (d : gmap string (gset string)) (k x : string)
  : gmap string (gset string) :=
  <[k := get_set d k ∪ {[x]}]> d.

Definition defaultdict_update (d : gmap string (gset string)) (k : string)
    (xs : gset string) : gmap string (gset string) :=
  <[k := get_set d k ∪ xs]> d.

(** [source_links.intersection(target_links)] and
    [target_links.difference(source_links)], after
    [target_links = set(target_links)]. *)
Definition shared_links (source_links : gset string) (target_links : list string)
  : gset string :=
  source_links ∩ list_to_set target_links.

Definition extra_links (source_links : gset string) (target_links : list string)
  : gset string :=
  list_to_set target_links ∖ source_links.

(** Body of [for target_id in identifiers]. The pair is the state of
    the two output dictionaries, which Python updates in place. *)
Definition assess_identifier (target : gmap string (list string))
    (qid : string) (source_links : gset string)
    (out : gmap string (gset string) * gmap string (gset string))
    (target_id : string)
  : gmap string (gset string) * gmap string (gset string) :=
  let '(to_deprecate, to_add) := out in
  match target !! target_id with
  | None => out                                  (* target_id not in target.keys() *)
  | Some target_links =>
      if decide (target_links = []) then out     (* not target_links: continue *)
      else
        let to_deprecate :=
          if decide (shared_links source_links target_links = ∅)
          then defaultdict_add to_deprecate target_id qid
          else to_deprecate in
        let to_add :=
          if decide (extra_links source_links target_links = ∅)
          then to_add
          else defaultdict_update to_add qid (extra_links source_links target_links) in
        (to_deprecate, to_add)
  end.

(** Body of [for qid, data in source.items()]. *)
Definition assess_item (target : gmap string (list string))
    (out : gmap string (gset string) * gmap string (gset string))
    (item : string * wikidata_item)
  : gmap string (gset string) * gmap string (gset string) :=
  let '(qid, data) := item in
  match links data with
  | None => out                                  (* not source_links: continue *)
  | Some source_links =>
      if decide (source_links = ∅) then out
      else foldl (assess_identifier target qid source_links) out
                 (elements (identifiers data))
  end.

Definition _assess (source : gmap string wikidata_item)
    (target : gmap string (list string))
    (to_deprecate to_add : gmap string (gset string))
  : gmap string (gset string) * gmap string (gset string) :=
  foldl (assess_item target) (to_deprecate, to_add) (map_to_list source).

(** What the run does with one identifier statement (QID, target-id),
    read off the three tests of the loop: the statement is assessed when
    the QID has links; it deprecates when the target links are there and
    share nothing with the source links; it augments with every target
    link the source lacks. *)
Definition assessed (data : wikidata_item) (sl : gset string) (tid : string) : Prop :=
  links data = Some sl ∧ sl ≠ ∅ ∧ tid ∈ identifiers data.

Definition deprecates (target : gmap string (list string)) (sl : gset string)
    (tid : string) : Prop :=
  ∃ tl, target !! tid = Some tl ∧ tl ≠ [] ∧ shared_links sl tl = ∅.

Definition augments (target : gmap string (list string)) (sl : gset string)
    (tid l : string) : Prop :=
  ∃ tl, target !! tid = Some tl ∧ l ∈ extra_links sl tl.

(* --------------------------------------------------------------------- *)
(** ** linker/classify.py: width reconciliation *)
(* --------------------------------------------------------------------- *)

(** The object [joblib.load] returns. Of each supported model only what
    [_add_missing_feature_columns] reads is kept:
    [len(kernel._binarizers)], [kernel.coef_.shape] and
    [kernel.input_shape] (whose first component is Keras's batch
    dimension). Any other object is known by its class and by its
    [__name__] attribute, which classes and functions have and instances
    lack. *)
Inductive classifier :=
  | NaiveBayesClassifier (binarizers : nat)
  | SVCClassifier (coef_shape : nat * nat)
  | SVMClassifier (coef_shape : nat * nat)
  | SingleLayerPerceptron (input_shape : option nat * nat)
  | MultiLayerPerceptron (input_shape : option nat * nat)
  | OtherObject (class_name : string) (name_attr : option string).

(** [classifier.__class__.__name__] *)
Definition class_name_of (c : classifier) : string :=
  match c with
  | NaiveBayesClassifier _ => "NaiveBayesClassifier"
  | SVCClassifier _ => "SVCClassifier"
  | SVMClassifier _ => "SVMClassifier"
  | SingleLayerPerceptron _ => "SingleLayerPerceptron"
  | MultiLayerPerceptron _ => "MultiLayerPerceptron"
  | OtherObject cls _ => cls
  end.

(** [classifier.__name__]: the instances of the supported classes have
    no such attribute either, but the code never asks them. *)
Definition getattr_name (c : classifier) : result string :=
  match c with
  | OtherObject _ (Some name) => ok name
  | _ => raise (AttributeError
                  ("'" +:+ class_name_of c +:+ "' object has no attribute '__name__'"))
  end.

(** How an f-string prints a set of strings. Python leaves the order of
    a set open; the order of the list is kept here. *)
Definition repr_str (s : string) : string := "'" +:+ s +:+ "'".

Fixpoint join (sep : string) (l : list string) : string :=
  match l with
  | [] => ""
  | [x] => x
  | x :: l => x +:+ sep +:+ join sep l
  end.

Definition repr_set (l : list string) : string :=
  match l with
  | [] => "set()"
  | _ => "{" +:+ join ", " (repr_str <$> l) +:+ "}"
  end.

(** A feature matrix: the row index (one candidate pair per row) and the
    labelled columns in their order. *)
Record feature_vectors (V : Type) := FeatureVectors {
  fv_index : list (string * string);
  fv_columns : list (string * list V);
}.
Arguments FeatureVectors {V} _ _.
Arguments fv_index {V} _.
Arguments fv_columns {V} _.

(** [range(n)] for a Python integer: empty when [n] is negative. *)
Definition range (n : Z) : list nat := seq 0 (Z.to_nat n).

Section width_reconciliation.
Context {V : Type}.

(** [constants.FEATURE_MISSING_VALUE] and the keys of
    [constants.CLASSIFIERS]; the version of [constants.py] that goes
    with this [classify.py] is not among the sources. *)
Variable FEATURE_MISSING_VALUE : V.
Variable CLASSIFIERS : list string.

(** [feature_vectors.shape[1]] and [len(feature_vectors)] *)
Definition shape1 (fv : feature_vectors V) : nat := length (fv_columns fv).
Definition len (fv : feature_vectors V) : nat := length (fv_index fv).

(** [feature_vectors[name] = column]: pandas assigns by label, so an
    existing label has its column replaced where it stands and a new
    label is appended on the right. *)
Definition setitem (fv : feature_vectors V) (name : string) (column : list V)
  : feature_vectors V :=
  FeatureVectors (fv_index fv)
    (if decide (name ∈ (fv_columns fv).*1)
     then (λ c, if decide (c.1 = name) then (name, column) else c) <$> fv_columns fv
     else fv_columns fv ++ [(name, column)]).

(** [numpy.full(n, value)] *)
Definition full (n : nat) (value : V) : list V := replicate n value.

Definition expected_features_of (c : classifier) : result nat :=
  match c with
  | NaiveBayesClassifier binarizers => ok binarizers
  | SVCClassifier coef_shape | SVMClassifier coef_shape => ok coef_shape.2
  | SingleLayerPerceptron input_shape | MultiLayerPerceptron input_shape =>
      ok input_shape.2
  | OtherObject _ _ =>
      let* name := getattr_name c in
      let err_msg := "Unsupported classifier: " +:+ name +:+
                     ". It should be one of " +:+ repr_set CLASSIFIERS in
      raise (ValueError err_msg)
  end.

(** The frame is changed in place by Python; here the call returns the
    frame as it is afterwards. *)
Definition _add_missing_feature_columns (c : classifier) (fv : feature_vectors V)
  : result (feature_vectors V) :=
  let* expected_features := expected_features_of c in
  let actual_features := shape1 fv in
  if decide (expected_features ≠ actual_features) then
    ok (foldl (λ fv i, setitem fv ("missing_" +:+ pretty i)
                         (full (len fv) FEATURE_MISSING_VALUE))
              fv (range (Z.of_nat expected_features - Z.of_nat actual_features)))
  else ok fv.

(** First turn of the chunk loop of [execute] (lines 191-214):
    [all_feature_vectors = feature_vectors] gives the chunk's frame a
    second name, and the padding that follows changes that one frame in
    place. The pair is ([all_feature_vectors], [feature_vectors]) after
    the call; with a single chunk the first is what gets pickled as the
    cache of the catalog and entity, whatever the classifier. *)
Definition first_chunk_frames (c : classifier) (fv : feature_vectors V)
  : result (feature_vectors V * feature_vectors V) :=
  let* fv := _add_missing_feature_columns c fv in
  ok (fv, fv).

(** Lines 136-139 and 214-217 of [execute]: reconcile the width, then
    ask the model. [predict] and [prob] stand for the model's own
    methods, which live in the libraries. *)
Context {P : Type}.
Variable predict prob : classifier → feature_vectors V → result P.

Definition predictions_of (c : classifier) (fv : feature_vectors V) : result P :=
  let* fv := _add_missing_feature_columns c fv in
  match c with
  | SVMClassifier _ => predict c fv
  | _ => prob c fv
  end.
End width_reconciliation.

(* --------------------------------------------------------------------- *)
(** ** linker/classify.py: post-classification rules *)
(* --------------------------------------------------------------------- *)

(** A cell of a record frame: the list of values (name tokens, URLs,
    ...), or a NaN where the record has no value. The code tells two
    kinds of NaN apart, since it tests [values is not nan], an identity:
    [nan] is the object [numpy.nan] itself, as pandas puts it in a column
    of objects; [float64_nan] is a NaN read from a float64 column, a
    [numpy.float64] made on reading, which is another object. *)
Inductive cell :=
  | nan
  | values (l : list string)
  | float64_nan.

(** The Wikidata and target chunks: the column labels, and the rows
    under their identifier. A row holds a cell for every column of the
    frame; a cell the row map lacks is [nan], as pandas fills a column
    of objects. *)
Record DataFrame := mkDataFrame {
  df_columns : gset string;
  df_rows : gmap string (gmap string cell);
}.

(** [frame.loc[label][column]] *)
Definition df_loc (frame : DataFrame) (label column : string) : result cell :=
  match df_rows frame !! label with
  | None => raise (KeyError label)
  | Some row =>
      if decide (column ∈ df_columns frame)
      then ok (default nan (row !! column))
      else raise (KeyError column)
  end.

(** [fields: Union[str, List[str]]] *)
Inductive fields_arg :=
  | FieldName (s : string)
  | FieldList (l : list string).

(** [if isinstance(fields, str): fields = [fields]] *)
Definition fields_list (fields : fields_arg) : list string :=
  match fields with
  | FieldName s => [s]
  | FieldList l => l
  end.

(** Truth value of the argument in [if post_block_fields:] *)
Definition truthy (fields : fields_arg) : bool :=
  match fields with
  | FieldName s => bool_decide (s ≠ "")
  | FieldList l => bool_decide (l ≠ [])
  end.

(** [DataFrame(predictions).apply(f, axis=1)]: [f] on every row, top
    down; the index is kept. *)
Fixpoint apply_rows {A B} (f : A → result B) (l : list A) : result (list B) :=
  match l with
  | [] => ok []
  | x :: l => let* y := f x in let* ys := apply_rows f l in ok (y :: ys)
  end.

(** [sub in s] on strings: on the UTF-8 bytes of two strings the test
    gives what it gives on their characters. *)
Fixpoint str_in (sub s : string) : bool :=
  String.prefix sub s ||
  match s with
  | EmptyString => false
  | String _ s' => str_in sub s'
  end.

(** *** [re.search(r'(Q\d+)$', u)]
    A string holds the UTF-8 bytes of a Python [str], and the pattern
    works on its characters. *)

(** A byte that continues a character: [10xxxxxx]. *)
Definition is_continuation (c : Ascii.ascii) : bool :=
  (128 <=? Ascii.nat_of_ascii c) && (Ascii.nat_of_ascii c <? 192).

Definition continues (s : string) : bool :=
  match s with
  | String c _ => is_continuation c
  | EmptyString => false
  end.

(** The characters of a string, each with its bytes: a byte that
    continues a character goes with the bytes before it. *)
Fixpoint chars (s : string) : list string :=
  match s with
  | EmptyString => []
  | String c s' =>
      match chars s' with
      | ch :: chs =>
          if continues s' then String c ch :: chs
          else String c EmptyString :: ch :: chs
      | [] => [String c EmptyString]
      end
  end.

(** The string of a list of characters. *)
Definition text (chs : list string) : string :=
  foldr String.append EmptyString chs.

Section pattern.
(** In a [str] pattern [\d] matches every Unicode decimal digit
    (category Nd): [0-9] in ASCII, and outside ASCII the digits of the
    Unicode tables of the interpreter, which are not among the sources.
    [unicode_decimal ch] says whether the character [ch], which is not
    an ASCII one, is such a digit. *)
Variable unicode_decimal : string → bool.

Definition is_digit (ch : string) : bool :=
  match ch with
  | String c EmptyString =>
      if Ascii.nat_of_ascii c <? 128
      then (48 <=? Ascii.nat_of_ascii c) && (Ascii.nat_of_ascii c <=? 57)
      else unicode_decimal ch
  | _ => unicode_decimal ch
  end.

(** The longest run of digits at the head of a list of characters, and
    the rest. *)
Fixpoint span_digits (s : list string) : list string * list string :=
  match s with
  | ch :: s' =>
      if is_digit ch
      then let '(ds, rest) := span_digits s' in (ch :: ds, rest)
      else ([], s)
  | [] => ([], [])
  end.

(** [$] holds at the end of the string and just before a newline that
    ends it. *)
Definition at_dollar (s : list string) : bool :=
  bool_decide (s = [] ∨ s = [String "010"%char EmptyString]).

(** The pattern tried at the head of [s]; the group on success. The
    greedy [\d+] needs no backtracking: after fewer digits the next
    character is a digit, where [$] does not hold. *)
Definition match_qid (s : list string) : option string :=
  match s with
  | ch :: s' =>
      if decide (ch = "Q") then
        let '(ds, rest) := span_digits s' in
        if bool_decide (ds ≠ []) && at_dollar rest
        then Some ("Q" +:+ text ds)
        else None
      else None
  | [] => None
  end.

(** The leftmost match, over the characters that are left. *)
Fixpoint search_qid (s : list string) : option string :=
  match match_qid s with
  | Some g => Some g
  | None =>
      match s with
      | [] => None
      | _ :: s' => search_qid s'
      end
  end.

(** [res.groups()[0]] when there is a match. *)
Definition re_search_qid (u : string) : option string :=
  search_qid (chars u).
End pattern.

(** Keep the first row of every key, top down; [seen] holds the keys
    met so far. *)
Fixpoint first_by_key {A K} `{EqDecision K} (key : A → K) (seen : list K)
    (l : list A) : list A :=
  match l with
  | [] => []
  | x :: l =>
      if decide (key x ∈ seen)
      then first_by_key key seen l
      else x :: first_by_key key (key x :: seen) l
  end.

Section post_classification.
(** Scores are floats, of which the rules only use equality, the order
    and the constants [0.0] and [1.0]. *)
Context {score : Type} `{EqDecision score}.
Variable zero one : score.
Variable ge : score → score → bool.

(** [keys.URL]; the [keys] module is not among the sources. *)
Variable URL : string.

(** The decimal digits outside ASCII, for the pattern. *)
Variable unicode_decimal : string → bool.

(** A row of the prediction series: [prediction.name] is the pair
    (QID, TID), [prediction[0]] the score. *)
Definition prediction : Type := (string * string) * score.

(** [if values is not nan: acc.update(set(values))]: only the object
    [numpy.nan] is skipped; of another NaN the code asks for the set of
    its elements, which a float does not have. *)
Definition update_values (acc : gset string) (vs : cell) : result (gset string) :=
  match vs with
  | nan => ok acc
  | values l => ok (acc ∪ list_to_set l)
  | float64_nan => raise (TypeError "'numpy.float64' object is not iterable")
  end.

(** One turn of [for column in fields], on the two sets built so far. *)
Definition collect_column (qid tid : string) (wikidata target : DataFrame)
    (acc : gset string * gset string) (column : string)
  : result (gset string * gset string) :=
  let '(wd_values, target_values) := acc in
  let* wd_values :=
    if decide (column ∈ df_columns wikidata)     (* wikidata.get(column) is not None *)
    then let* vs := df_loc wikidata qid column in update_values wd_values vs
    else ok wd_values in
  let* target_values :=
    if decide (column ∈ df_columns target)
    then let* vs := df_loc target tid column in update_values target_values vs
    else ok target_values in
  ok (wd_values, target_values).

Definition _zero_when_not_exact_match (p : prediction) (fields : fields_arg)
    (wikidata target : DataFrame) : result score :=
  let fields := fields_list fields in
  let '((qid, tid), raw) := p in
  let* (wd_values, target_values) :=
    for_each (collect_column qid tid wikidata target) (∅, ∅) fields in
  ok (if decide (wd_values ## target_values) then zero else raw).

Definition _post_classification_blocking (predictions : list prediction)
    (wd_chunk target_chunk : DataFrame) (post_block_fields : fields_arg)
  : result (list prediction) :=
  if truthy post_block_fields
  then apply_rows
         (λ p, let* s := _zero_when_not_exact_match p post_block_fields
                           wd_chunk target_chunk in
               ok (p.1, s))
         predictions
  else ok predictions.

(** [for u in urls]: the first URL that holds 'wikidata' and matches
    the pattern decides; the code returns the integer [0] where the
    identifiers differ, which is the score [0.0]. *)
Fixpoint first_wikidata_link (qid : string) (raw : score) (urls : list string)
  : score :=
  match urls with
  | [] => raw
  | u :: urls =>
      if bool_decide (u ≠ EmptyString) && str_in "wikidata" u then
        match re_search_qid unicode_decimal u with
        | Some g => if decide (qid = g) then one else zero
        | None => first_wikidata_link qid raw urls
        end
      else first_wikidata_link qid raw urls
  end.

(** A NaN is a float, which is true as a condition and cannot be
    iterated. *)
Definition _one_when_wikidata_link_correct (p : prediction) (target : DataFrame)
  : result score :=
  let '((qid, tid), raw) := p in
  let* urls := df_loc target tid URL in
  match urls with
  | nan => raise (TypeError "'float' object is not iterable")
  | values urls => ok (first_wikidata_link qid raw urls)
  | float64_nan => raise (TypeError "'numpy.float64' object is not iterable")
  end.

(** [predictions[predictions >= threshold]] *)
Definition at_least (threshold : score) (predictions : list prediction)
  : list prediction :=
  filter (λ p : prediction, ge p.2 threshold) predictions.

(** [Series.drop_duplicates()]: a series has one column, its values, so
    a row goes when its score was seen on an earlier row; the index
    plays no part. *)
Definition drop_duplicates (predictions : list prediction) : list prediction :=
  first_by_key snd [] predictions.

(** [predictions[predictions >= threshold].drop_duplicates()] *)
Definition threshold_dedup (threshold : score) (predictions : list prediction)
  : list prediction :=
  drop_duplicates (at_least threshold predictions).

(** Lines 141-151 and 219-231 of [execute]: what happens to the raw
    predictions of a chunk before they are yielded. *)
Definition correct_and_filter (predictions : list prediction)
    (wd_chunk target_chunk : DataFrame) (post_block_fields : fields_arg)
    (threshold : score) : result (list prediction) :=
  let* predictions :=
    _post_classification_blocking predictions wd_chunk target_chunk
      post_block_fields in
  let* predictions :=
    if decide (URL ∈ df_columns target_chunk)      (* target_chunk.get(keys.URL) is not None *)
    then apply_rows
           (λ p, let* s := _one_when_wikidata_link_correct p target_chunk in
                 ok (p.1, s))
           predictions
    else ok predictions in
  ok (threshold_dedup threshold predictions).
End post_classification.

(** The values a record holds under the override fields: the union,
    over the fields the frame has, of the record's value lists. This
    follows the words of the specification and is compared with the two
    sets the loop of [_zero_when_not_exact_match] builds. *)
Definition cell_values (frame : DataFrame) (label column : string) : gset string :=
  match df_rows frame !! label with
  | Some row =>
      if decide (column ∈ df_columns frame) then
        match default nan (row !! column) with
        | values l => list_to_set l
        | nan | float64_nan => ∅
        end
      else ∅
  | None => ∅
  end.

Definition override_values (frame : DataFrame) (label : string)
    (fields : list string) : gset string :=
  ⋃ (cell_values frame label <$> fields).

(** The record can be read under every override field the frame has:
    its identifier is in the frame's index. *)
Definition readable (frame : DataFrame) (label : string) (fields : list string)
  : Prop :=
  ∀ column, column ∈ fields → column ∈ df_columns frame →
            is_Some (df_rows frame !! label).

(** Every row of the series can be read in both frames. *)
Definition all_readable {score : Type} (predictions : list ((string * string) * score))
    (wikidata target : DataFrame) (fields : list string) : Prop :=
  ∀ qid tid raw, ((qid, tid), raw) ∈ predictions →
    readable wikidata qid fields ∧ readable target tid fields.

(** The cell of the record under a column of the frame is a NaN of a
    float64 column. *)
Definition has_float64_nan (frame : DataFrame) (label column : string) : bool :=
  bool_decide (column ∈ df_columns frame) &&
  match df_rows frame !! label with
  | Some row =>
      match default nan (row !! column) with
      | float64_nan => true
      | _ => false
      end
  | None => false
  end.

(** Under the override fields the record has lists and the object
    [numpy.nan] only. *)
Definition iterable (frame : DataFrame) (label : string) (fields : list string)
  : Prop :=
  ∀ column, column ∈ fields → has_float64_nan frame label column = false.

Definition all_iterable {score : Type} (predictions : list ((string * string) * score))
    (wikidata target : DataFrame) (fields : list string) : Prop :=
  ∀ qid tid raw, ((qid, tid), raw) ∈ predictions →
    iterable wikidata qid fields ∧ iterable target tid fields.

(** The record has no value under the field: the frame lacks the
    column, or the cell is the object [numpy.nan] or an empty list. *)
Definition no_value (frame : DataFrame) (label column : string) : Prop :=
  column ∉ df_columns frame
  ∨ df_loc frame label column = ok nan
  ∨ df_loc frame label column = ok (values []).

(** The last step as the specification words it: keep the scores at or
    above the threshold, then drop duplicate pairs, the first occurrence
    staying. *)
Definition threshold_dedup_pairs {score : Type} (ge : score → score → bool)
    (threshold : score) (predictions : list ((string * string) * score))
  : list ((string * string) * score) :=
  first_by_key fst [] (filter (λ p : (string * string) * score, ge p.2 threshold) predictions).

(** A URL that ends in a Q-identifier: its characters end in [Q], then
    one decimal digit or more, then nothing. *)
Definition all_digits (unicode_decimal : string → bool) (ds : list string) : Prop :=
  Forall (λ ch, is_digit unicode_decimal ch = true) ds.

Definition ends_in_qid (unicode_decimal : string → bool) (u q : string) : Prop :=
  ∃ pre ds, chars u = pre ++ "Q" :: ds ∧ q = "Q" +:+ text ds ∧ ds ≠ []
            ∧ all_digits unicode_decimal ds.

(* --------------------------------------------------------------------- *)
(** ** linker/evaluate.py: nested cross-validation *)
(* --------------------------------------------------------------------- *)

(** The calls [nested_k_fold_with_grid_search] makes to its
    collaborators, in the order it makes them. *)
Inductive event :=
  | build_dataset (goal catalog entity dir_io : string)
  | init_model (classifier : string)
  | prepare_stratified_k_fold (k : nat)
  | grid_search_fit (fold : nat)
  | grid_search_score (fold : nat).

(** The [defaultdict(list)] the function returns, with its three keys
    [train_<scoring>], [test_<scoring>] and [best_models]. *)
Record nested_result (S M : Type) := NestedResult {
  train_scores : list S;
  test_scores : list S;
  best_models : list M;
}.
Arguments NestedResult {S M} _ _ _.
Arguments train_scores {S M} _.
Arguments test_scores {S M} _.
Arguments best_models {S M} _.

Section nested_cross_validation.
Context {S M : Type}.

(** [keys.SINGLE_LAYER_PERCEPTRON] and [keys.MULTI_LAYER_PERCEPTRON];
    the [keys] module is not among the sources. *)
Variable SINGLE_LAYER_PERCEPTRON MULTI_LAYER_PERCEPTRON : string.

(** What the grid search reports on each outer fold:
    [grid_search.best_score_], [grid_search.score(...)] and
    [grid_search.best_estimator_]. *)
Variable best_score_ : nat → S.
Variable test_score : nat → S.
Variable best_estimator_ : nat → M.

(** The function with the trace of its calls. The outer
    [StratifiedKFold(n_splits=k)] yields [k] splits. *)
Definition nested_k_fold_with_grid_search {G : Type}
    (classifier : string) (param_grid : G) (catalog entity : string) (k : nat)
    (scoring dir_io : string)
  : list event * result (nested_result S M) :=
  if decide (classifier ∈ [SINGLE_LAYER_PERCEPTRON; MULTI_LAYER_PERCEPTRON]) then
    ([], raise (NotImplementedError
                  ("Grid search for " +:+ classifier +:+ " is not supported")))
  else
    let folds := seq 0 k in
    ([build_dataset "training" catalog entity dir_io;
      init_model classifier;
      prepare_stratified_k_fold k]
     ++ flat_map (λ i, [grid_search_fit i; grid_search_score i]) folds,
     ok (NestedResult (best_score_ <$> folds) (test_score <$> folds)
                      (best_estimator_ <$> folds))).
End nested_cross_validation.

(* --------------------------------------------------------------------- *)
(** ** Further definitions *)
(* --------------------------------------------------------------------- *)

(** The Arabic-Indic digits, U+0660 to U+0669, whose UTF-8 bytes are 217
    and then 160 to 169: decimal digits outside ASCII, for the instances
    below that need some. *)
Definition arabic_indic (ch : string) : bool :=
  match ch with
  | String c1 (String c2 EmptyString) =>
      (Ascii.nat_of_ascii c1 =? 217)
      && (160 <=? Ascii.nat_of_ascii c2) && (Ascii.nat_of_ascii c2 <=? 169)
  | _ => false
  end.

(** Where the pattern [(Q\d+)$] can match: the identifier stands at the
    end of the characters of the string, or before a newline that ends
    them. *)
Definition qid_at_end (unicode_decimal : string → bool) (u q : string) : Prop :=
  ∃ pre ds tail,
    chars u = pre ++ "Q" :: ds ++ tail ∧ q = "Q" +:+ text ds ∧ ds ≠ []
    ∧ all_digits unicode_decimal ds
    ∧ (tail = [] ∨ tail = [String "010"%char EmptyString]).

(** The loop of [_add_missing_feature_columns] over any list of column
    numbers. *)
Definition pad_loop {V : Type} (FEATURE_MISSING_VALUE : V)
    (fv : feature_vectors V) (l : list nat) : feature_vectors V :=
  foldl (λ fv i, setitem fv ("missing_" +:+ pretty i)
                   (full (len fv) FEATURE_MISSING_VALUE)) fv l.

(* --------------------------------------------------------------------- *)
(** ** commons/constants.py: the catalog tables *)
(* --------------------------------------------------------------------- *)

(** [d.get(k)] on a dictionary written as the list of its items, in the
    order of the source. *)
Fixpoint dict_get {A} (k : string) (d : list (string * A)) : option A :=
  match d with
  | [] => None
  | (k', v) :: d => if decide (k = k') then Some v else dict_get k d
  end.

(** How [%s] prints [d.keys()]. *)
Definition repr_dict_keys {A} (d : list (string * A)) : string :=
  "dict_keys([" +:+ join ", " (repr_str <$> d.*1) +:+ "])".

(** An entry of [TARGET_CATALOGS]: the Wikidata class and the three
    database entities, by the name of their class; [None] where the
    source has [None]. *)
Record catalog_entity := CatalogEntity {
  ce_qid : string;
  ce_entity : option string;
  ce_link_entity : option string;
  ce_nlp_entity : option string;
}.

Definition HANDLED_ENTITIES : list (string * string) :=
  [("band", "class"); ("musician", "occupation"); ("actor", "occupation");
   ("director", "occupation"); ("producer", "occupation")].

Section catalogs.
(** The class QIDs of [soweego.wikidata.vocabulary], which is not among
    the sources. *)
Variable MUSICIAN BAND ACTOR FILM_DIRECTOR FILM_PRODUCER : string.

Definition TARGET_CATALOGS : list (string * list (string * catalog_entity)) :=
  [("discogs",
    [("musician", CatalogEntity MUSICIAN (Some "DiscogsMusicianEntity")
                    (Some "DiscogsMusicianLinkEntity")
                    (Some "DiscogsMusicianNlpEntity"));
     ("band", CatalogEntity BAND (Some "DiscogsGroupEntity")
                (Some "DiscogsGroupLinkEntity") (Some "DiscogsGroupNlpEntity"))]);
   ("imdb",
    [("actor", CatalogEntity ACTOR None None None);
     ("director", CatalogEntity FILM_DIRECTOR None None None);
     ("producer", CatalogEntity FILM_PRODUCER None None None)]);
   ("musicbrainz",
    [("musician", CatalogEntity MUSICIAN (Some "MusicbrainzArtistEntity")
                    (Some "MusicbrainzArtistLinkEntity") None);
     ("band", CatalogEntity BAND (Some "MusicbrainzBandEntity")
                (Some "MusicbrainzBandLinkEntity") None)])].

(* --------------------------------------------------------------------- *)
(** ** validator/checks.py: gathering and the whole check *)
(* --------------------------------------------------------------------- *)

Definition _get_catalog_constants (catalog : string)
  : result (list (string * catalog_entity)) :=
  match dict_get catalog TARGET_CATALOGS with
  | Some ((_ :: _) as catalog_constants) => ok catalog_constants
  | _ =>
      raise (ValueError ("Bad catalog: " +:+ catalog +:+ ". Please use on of "
                         +:+ repr_dict_keys TARGET_CATALOGS))
  end.

(** An entry is a dictionary of four keys, which is never empty, so
    only a missing entry is refused. *)
Definition _get_catalog_entity (entity : string)
    (catalog_constants : list (string * catalog_entity)) : result catalog_entity :=
  match dict_get entity catalog_constants with
  | Some catalog_entity => ok catalog_entity
  | None =>
      raise (ValueError ("Bad entity type: " +:+ entity +:+ ". Please use one of "
                         +:+ repr_dict_keys catalog_constants))
  end.

(** [target_links[row.catalog_id].append(row.url)] on a
    [defaultdict(list)] *)
Definition append_link (target_links : gmap string (list string))
    (row : string * string) : gmap string (list string) :=
  <[row.1 := default [] (target_links !! row.1) ++ [row.2]]> target_links.

(** The rows of [session.query(link_entity.catalog_id,
    link_entity.url).all()], by the name of the link entity. *)
Variable link_rows : string → list (string * string).

Definition _gather_target_links (entity catalog : string)
  : result (gmap string (list string)) :=
  let* catalog_constants := _get_catalog_constants catalog in
  let* catalog_entity := _get_catalog_entity entity catalog_constants in
  match ce_link_entity catalog_entity with
  | None =>
      raise (AttributeError "'NoneType' object has no attribute 'catalog_id'")
  | Some link_entity => ok (foldl append_link ∅ (link_rows link_entity))
  end.

(** [sparql_queries.run_identifier_or_links_query]: the query type, the
    class QID, the catalog PID and the offset; every result is a
    dictionary, given by its items. *)
Variable run_identifier_or_links_query :
  string * option string → string → string → nat → list (list (string * string)).

(** [if not aggregated.get(qid): aggregated[qid] = {'identifiers':
    set()}], then [aggregated[qid]['identifiers'].add(target_id)] *)
Definition add_identifier (aggregated : gmap string wikidata_item)
    (r : string * string) : gmap string wikidata_item :=
  let item := default (WikidataItem ∅ None) (aggregated !! r.1) in
  <[r.1 := WikidataItem (identifiers item ∪ {[r.2]}) (links item)]> aggregated.

(** The dictionary [aggregated] is changed in place; the call returns
    it as it is afterwards. *)
Definition _gather_identifiers (entity catalog catalog_pid : string)
    (aggregated : gmap string wikidata_item) : result (gmap string wikidata_item) :=
  let* catalog_constants := _get_catalog_constants catalog in
  let query_type := ("identifier", dict_get entity HANDLED_ENTITIES) in
  let* class_qid :=
    match dict_get entity catalog_constants with
    | Some catalog_entity => ok (ce_qid catalog_entity)
    | None => raise (KeyError entity)
    end in
  ok (foldl (foldl add_identifier) aggregated
        (run_identifier_or_links_query query_type class_qid catalog_pid 0)).

(** [wikidata[qid]] fails on a QID that is not a key. *)
Definition add_wikidata_link (wikidata : gmap string wikidata_item)
    (r : string * string) : result (gmap string wikidata_item) :=
  match wikidata !! r.1 with
  | None => raise (KeyError r.1)
  | Some item =>
      ok (<[r.1 := WikidataItem (identifiers item)
                     (Some (default ∅ (links item) ∪ {[r.2]}))]> wikidata)
  end.

(** [api_requests.get_links] on the keys of the dictionary; the PIDs
    and formatters it is given are of types [U] and [E]. *)
Context {U E : Type}.
Variable get_links : list string → U → E → list (list (string * string)).

Definition _gather_wikidata_links (wikidata : gmap string wikidata_item)
    (url_pids : U) (ext_id_pids_to_urls : E) : result (gmap string wikidata_item) :=
  for_each (for_each add_wikidata_link) wikidata
    (get_links (map_to_list wikidata).*1 url_pids ext_id_pids_to_urls).

(** [url_utils.get_external_id_from_url], which returns the pair
    (external identifier, PID), and [vocabulary.DESCRIBED_AT_URL]. *)
Variable get_external_id_from_url : string → E → option string * option string.
Variable DESCRIBED_AT_URL : string.

(** Truth value of a string that may be [None]. *)
Definition str_truthy (s : option string) : bool :=
  match s with
  | Some s => bool_decide (s ≠ EmptyString)
  | None => false
  end.

(** Body of [for url in urls], on the two lists built so far. *)
Definition extract_url (ext_id_pids_to_urls : E) (qid : string)
    (acc : list (string * option string * string) * list (string * string * string))
    (url : string)
  : list (string * option string * string) * list (string * string * string) :=
  let '(ext_id, pid) := get_external_id_from_url url ext_id_pids_to_urls in
  if str_truthy ext_id
  then (acc.1 ++ [(qid, pid, default EmptyString ext_id)], acc.2)
  else (acc.1, acc.2 ++ [(qid, DESCRIBED_AT_URL, url)]).

Definition _extract_ids_from_urls (to_add : gmap string (gset string))
    (ext_id_pids_to_urls : E)
  : list (string * option string * string) * list (string * string * string) :=
  foldl (λ acc item, foldl (extract_url ext_id_pids_to_urls item.1) acc
                       (elements item.2))
        ([], []) (map_to_list to_add).

(** [vocabulary.CATALOG_MAPPING]: for a catalog, its PID and its QID. *)
Variable CATALOG_MAPPING : list (string * (string * string)).

Definition _get_vocabulary (catalog : string) : result (string * string) :=
  match dict_get catalog CATALOG_MAPPING with
  | Some catalog_terms => ok catalog_terms
  | None =>
      raise (ValueError ("Bad catalog: " +:+ catalog +:+ ". Please use one of "
                         +:+ repr_dict_keys CATALOG_MAPPING))
  end.

(** What [_gather_relevant_pids] returns, gathered from the two queries
    it runs. *)
Variable relevant_pids : U * E.

Definition check_links (entity catalog : string)
  : result (gmap string (gset string)
            * list (string * option string * string)
            * list (string * string * string)
            * gmap string wikidata_item) :=
  let* catalog_terms := _get_vocabulary catalog in
  let* target_links := _gather_target_links entity catalog in
  let* wikidata_links := _gather_identifiers entity catalog catalog_terms.1 ∅ in
  let '(url_pids, ext_id_pids_to_urls) := relevant_pids in
  let* wikidata_links :=
    _gather_wikidata_links wikidata_links url_pids ext_id_pids_to_urls in
  let '(to_deprecate, to_add) := _assess wikidata_links target_links ∅ ∅ in
  let '(ext_ids_to_add, urls_to_add) :=
    _extract_ids_from_urls to_add ext_id_pids_to_urls in
  ok (to_deprecate, ext_ids_to_add, urls_to_add, wikidata_links).

(** [session.query(entity).filter(entity.catalog_id == target_id).all()],
    by the rows it finds. *)
Context {Row : Type}.
Variable catalog_rows : string → string → list Row.

Definition check_existence (class_or_occupation_query class_qid catalog_pid entity : string)
  : gmap string (list string) :=
  let query_type := ("identifier", Some class_or_occupation_query) in
  let invalid :=
    foldl (foldl (λ (invalid : gmap string (gset string)) r,
                    match catalog_rows entity r.2 with
                    | [] => defaultdict_add invalid r.2 r.1
                    | _ => invalid
                    end)) ∅
          (run_identifier_or_links_query query_type class_qid catalog_pid 0) in
  elements <$> invalid.
End catalogs.

(** The entry of the table for a catalog and an entity type, if any. *)
Definition lookup_catalog_entity
    (MUSICIAN BAND ACTOR FILM_DIRECTOR FILM_PRODUCER : string)
    (catalog entity : string) : option catalog_entity :=
  match dict_get catalog
          (TARGET_CATALOGS MUSICIAN BAND ACTOR FILM_DIRECTOR FILM_PRODUCER) with
  | Some catalog_constants => dict_get entity catalog_constants
  | None => None
  end.

(** Reading the aggregated Wikidata dictionary: the identifiers and the
    links of a QID, empty where the QID or the key is missing, and the
    ['links'] entry itself. *)
Definition identifiers_of (wikidata : gmap string wikidata_item) (qid : string)
  : gset string :=
  match wikidata !! qid with
  | Some item => identifiers item
  | None => ∅
  end.

Definition links_entry (wikidata : gmap string wikidata_item) (qid : string)
  : option (gset string) :=
  match wikidata !! qid with
  | Some item => links item
  | None => None
  end.

Definition links_of (wikidata : gmap string wikidata_item) (qid : string)
  : gset string :=
  default ∅ (links_entry wikidata qid).

(* --------------------------------------------------------------------- *)
(** ** linker/classify.py: the blocking defaults and the upload *)
(* --------------------------------------------------------------------- *)

(** [a or b] on strings that may be [None] *)
Definition py_or (a b : option string) : option string :=
  if str_truthy a then a else b.

Module classify.
Section command.
Context {score : Type} `{EqDecision score}.

(** [keys.NAME_TOKENS]; the [keys] module is not among the sources. *)
Variable NAME_TOKENS : string.

(** The blocking defaults of [cli]; the pair is ([wd_block],
    [target_block]). *)
Definition default_blocks (target_block wd_block : option string)
  : option string * option string :=
  if decide (1 ≤ length (filter (λ b, b = None) [target_block; wd_block])) then
    let block := py_or (py_or wd_block target_block) (Some NAME_TOKENS) in
    (block, block)
  else (wd_block, target_block).

(** [dict(predictions.to_dict().keys())]: the keys of the series are
    its pairs, each once, in the order they first occur; as the items of
    a dictionary, a later pair with the same QID replaces an earlier
    one. *)
Definition upload_links (predictions : list ((string * string) * score))
  : gmap string string :=
  foldl (λ links (k : string * string), <[k.1 := k.2]> links) ∅
        (first_by_key id [] predictions.*1).

(** What [wikidata_bot.add_identifiers] is called with. *)
Definition _upload (predictions : list ((string * string) * score))
    (catalog : string) (sandbox : bool) : gmap string string * string * bool :=
  (upload_links predictions, catalog, sandbox).
End command.
End classify.

(* --------------------------------------------------------------------- *)
(** ** linker/train.py *)
(* --------------------------------------------------------------------- *)

Module train.
Section execute.
Context {WdChunk TargetChunk FV Model : Type}.

(** The collaborators: [blocking.train_test_block],
    [blocking.full_text_query_block] (which depends on the Wikidata
    chunk and its number, not on the target chunk),
    [workflow.extract_features], and [_train] with the [concat] of the
    feature vectors it is given. Pair indices are sets of pairs. *)
Variable train_test_block : WdChunk → TargetChunk → gset (string * string).
Variable full_text_query_block : WdChunk → nat → gset (string * string).
Variable extract_features : gset (string * string) → WdChunk → TargetChunk → FV.
Variable _train : list FV → option (gset (string * string)) → Model.

(** What [for target_chunk in target_generator] goes through while the
    Wikidata chunk number [i] is processed: every target chunk each time
    if the object can be iterated again, nothing after the first time if
    it is a generator. *)
Variable target_pass : nat → list TargetChunk.

(** [all_samples & positives_from_wd] *)
Definition actual_positive (wd_chunk : WdChunk) (i : nat)
    (target_chunk : TargetChunk) : gset (string * string) :=
  full_text_query_block wd_chunk i ∩ train_test_block wd_chunk target_chunk.

(** Body of the inner loop, on [feature_vectors] and
    [positive_samples_index]. *)
Definition block (i : nat) (wd_chunk : WdChunk)
    (st : list FV * option (gset (string * string))) (target_chunk : TargetChunk)
  : result (list FV * option (gset (string * string))) :=
  let '(feature_vectors, positive_samples_index) := st in
  let all_samples := full_text_query_block wd_chunk i in
  let* positive_samples_index :=
    if decide (i = 1) then ok (Some (actual_positive wd_chunk i target_chunk))
    else
      match positive_samples_index with
      | Some index => ok (Some (index ∪ actual_positive wd_chunk i target_chunk))
      | None =>
          raise (TypeError
                   "unsupported operand type(s) for |=: 'NoneType' and 'MultiIndex'")
      end in
  ok (feature_vectors ++ [extract_features all_samples wd_chunk target_chunk],
      positive_samples_index).

(** The two loops; [enumerate(wd_generator, 1)] numbers the chunks
    from 1. *)
Definition gather (wd_chunks : list WdChunk)
  : result (list FV * option (gset (string * string))) :=
  for_each (λ st (item : nat * WdChunk),
              for_each (block item.1 item.2) st (target_pass item.1))
           ([], None) (imap (λ k wd_chunk, (S k, wd_chunk)) wd_chunks).

(** [pandas.concat] refuses an empty list. *)
Definition execute (wd_chunks : list WdChunk) : result Model :=
  let* (feature_vectors, positive_samples_index) := gather wd_chunks in
  match feature_vectors with
  | [] => raise (ValueError "No objects to concatenate")
  | _ => ok (_train feature_vectors positive_samples_index)
  end.
End execute.
End train.

(* --------------------------------------------------------------------- *)
(** ** pipeline.py *)
(* --------------------------------------------------------------------- *)

Module pipeline.

Inductive command :=
  | import_cli | validate_links
  | evaluate_cli | train_cli | classify_cli
  | dead_ids_cli | links_cli | bio_cli.

(** How a command ends: it returns, it leaves through [SystemExit], or
    it raises something else. *)
Inductive outcome :=
  | returns
  | system_exit
  | raises (e : exn).

(** What the pipeline does, in order. *)
Inductive step :=
  | invoke (function : command) (args : list (option string))
  | set_credentials_from_path (path : string).

Section run.
Variable call : command → list (option string) → outcome.

(** [target_database.supported_entities_for_target]; an entity type may
    be [None]. *)
Variable supported_entities_for_target : string → list (option string).

(** A procedure takes the steps done so far and returns them with its
    own, and the exception if it raised one. *)
Definition procedure : Type := list step → list step * result ().

Definition and_then (p q : procedure) : procedure :=
  λ trace,
    match p trace with
    | (trace, inr _) => q trace
    | (trace, inl e) => (trace, inl e)
    end.

Definition skip : procedure := λ trace, (trace, ok ()).

(** [try: function(args) except SystemExit: pass] *)
Definition _invoke_no_exit (function : command) (args : list (option string))
  : procedure :=
  λ trace,
    (trace ++ [invoke function args],
     match call function args with
     | raises e => raise e
     | returns | system_exit => ok ()
     end).

(** No command raises anything but [SystemExit]. *)
Definition only_exits : Prop :=
  ∀ function args, call function args = returns
                   ∨ call function args = system_exit.

Definition _importer (target : string) : procedure :=
  and_then (_invoke_no_exit import_cli [Some target])
           (_invoke_no_exit validate_links [Some target]).

Fixpoint linker_loop (target upload_option : string)
    (target_types : list (option string)) : procedure :=
  match target_types with
  | [] => skip
  | target_type :: target_types =>
      if str_truthy target_type then
        and_then (_invoke_no_exit evaluate_cli [Some "slp"; Some target; target_type])
        (and_then (_invoke_no_exit train_cli [Some "slp"; Some target; target_type])
        (and_then (_invoke_no_exit classify_cli
                     [Some "slp"; Some target; target_type; Some upload_option])
                  (linker_loop target upload_option target_types)))
      else linker_loop target upload_option target_types
  end.

Definition _linker (target : string) (upload : bool) : procedure :=
  let upload_option := if upload then "--upload" else "--no-upload" in
  linker_loop target upload_option (supported_entities_for_target target).

(** [args.insert(1, entity_type)] *)
Definition insert_1 (entity_type : option string) (args : list (option string))
  : list (option string) :=
  take 1 args ++ entity_type :: drop 1 args.

(** The loop of [_validator]; [args] is one list, changed in place on
    every turn. *)
Fixpoint validator_loop (args : list (option string))
    (entity_types : list (option string)) : procedure :=
  match entity_types with
  | [] => skip
  | entity_type :: entity_types =>
      let args := insert_1 entity_type args in
      and_then (_invoke_no_exit dead_ids_cli args)
      (and_then (_invoke_no_exit links_cli args)
      (and_then (_invoke_no_exit bio_cli args)
                (validator_loop args entity_types)))
  end.

Definition _validator (target : string) (upload : bool) : procedure :=
  let args := if upload then [Some target; Some "--upload"] else [Some target] in
  validator_loop args (supported_entities_for_target target).

Definition cli (target : string) (validator importer linker upload : bool)
    (credentials_path : option string) : procedure :=
  and_then (λ trace,
              if str_truthy credentials_path
              then (trace ++ [set_credentials_from_path
                                (default EmptyString credentials_path)], ok ())
              else (trace, ok ()))
  (and_then (if importer then _importer target else skip)
  (and_then (if linker then _linker target upload else skip)
            (if validator then _validator target upload else skip))).
End run.
End pipeline.


(* ===================================================================== *)
(** * Properties *)
(* ===================================================================== *)

(** ** Reconciliation checker *)

Section assess_facts.
Implicit Types (target : gmap string (list string)).
Implicit Types (source : gmap string wikidata_item).
Implicit Types (dep add : gmap string (gset string)).
Implicit Types (sl : gset string) (tl : list string).

Lemma get_set_add dep k x k' y :
  y ∈ get_set (defaultdict_add dep k x) k' ↔
  y ∈ get_set dep k' ∨ (k' = k ∧ y = x).
Proof.
  unfold defaultdict_add, get_set at 1.
  destruct (decide (k = k')) as [->|Hne].
  - rewrite lookup_insert_eq. simpl. set_solver.
  - rewrite lookup_insert_ne by done. fold (get_set dep k'). naive_solver.
Qed.

Lemma get_set_update dep k xs k' y :
  y ∈ get_set (defaultdict_update dep k xs) k' ↔
  y ∈ get_set dep k' ∨ (k' = k ∧ y ∈ xs).
Proof.
  unfold defaultdict_update, get_set at 1.
  destruct (decide (k = k')) as [->|Hne].
  - rewrite lookup_insert_eq. simpl. set_solver.
  - rewrite lookup_insert_ne by done. fold (get_set dep k'). naive_solver.
Qed.

Lemma extra_links_nil sl : extra_links sl [] = ∅.
Proof. unfold extra_links. set_solver. Qed.

(** An empty intersection with a non-empty target set leaves every
    target link in the difference. *)
Lemma no_shared_all_extra sl tl :
  tl ≠ [] → shared_links sl tl = ∅ → extra_links sl tl ≠ ∅.
Proof.
  unfold shared_links, extra_links. intros Hne Hsh.
  destruct tl as [|l tl]; [done|].
  assert (l ∈ (list_to_set (l :: tl) ∖ sl : gset string)); [|set_solver].
  apply elem_of_difference. split; [set_solver|].
  intros Hin. assert (l ∈ sl ∩ list_to_set (l :: tl)) by set_solver.
  set_solver.
Qed.

Lemma assess_identifier_fires target qid sl dep add tid tl :
  target !! tid = Some tl → tl ≠ [] →
  assess_identifier target qid sl (dep, add) tid =
    (if decide (shared_links sl tl = ∅)
     then defaultdict_add dep tid qid else dep,
     if decide (extra_links sl tl = ∅)
     then add else defaultdict_update add qid (extra_links sl tl)).
Proof.
  intros Ht Hne. unfold assess_identifier. rewrite Ht.
  destruct (decide (tl = [])); done.
Qed.

Lemma assess_identifier_skips target qid sl out tid :
  target !! tid = None ∨ target !! tid = Some [] →
  assess_identifier target qid sl out tid = out.
Proof.
  intros [Ht|Ht]; unfold assess_identifier; destruct out; rewrite Ht; done.
Qed.

Lemma assess_identifier_dep target qid sl out tid q t :
  q ∈ get_set (assess_identifier target qid sl out tid).1 t ↔
  q ∈ get_set out.1 t ∨ (q = qid ∧ t = tid ∧ deprecates target sl tid).
Proof.
  destruct out as [dep add]. unfold deprecates.
  destruct (target !! tid) as [tl|] eqn:Ht.
  - destruct (decide (tl = [])) as [->|Hne].
    + rewrite assess_identifier_skips by auto. naive_solver.
    + rewrite (assess_identifier_fires _ _ _ _ _ _ tl) by done. simpl.
      destruct (decide (shared_links sl tl = ∅)).
      * rewrite get_set_add. naive_solver.
      * naive_solver.
  - rewrite assess_identifier_skips by auto. naive_solver.
Qed.

Lemma assess_identifier_add target qid sl out tid q l :
  l ∈ get_set (assess_identifier target qid sl out tid).2 q ↔
  l ∈ get_set out.2 q ∨ (q = qid ∧ augments target sl tid l).
Proof.
  destruct out as [dep add]. unfold augments.
  destruct (target !! tid) as [tl|] eqn:Ht.
  - destruct (decide (tl = [])) as [->|Hne].
    + rewrite assess_identifier_skips by auto.
      split; [auto|]. intros [?|(_ & tl & Heq & Hin)]; [done|].
      simplify_eq. rewrite extra_links_nil in Hin. set_solver.
    + rewrite (assess_identifier_fires _ _ _ _ _ _ tl) by done. simpl.
      destruct (decide (extra_links sl tl = ∅)) as [He|He].
      * split; [auto|]. intros [?|(_ & tl' & Heq & Hin)]; [done|].
        simplify_eq. set_solver.
      * rewrite get_set_update. naive_solver.
  - rewrite assess_identifier_skips by auto. naive_solver.
Qed.

Lemma assess_identifiers_dep target qid sl ids out q t :
  q ∈ get_set (foldl (assess_identifier target qid sl) out ids).1 t ↔
  q ∈ get_set out.1 t ∨ (q = qid ∧ t ∈ ids ∧ deprecates target sl t).
Proof.
  revert out. induction ids as [|tid ids IH]; intros out; cbn [foldl].
  - set_solver.
  - rewrite IH, assess_identifier_dep, elem_of_cons. naive_solver.
Qed.

Lemma assess_identifiers_add target qid sl ids out q l :
  l ∈ get_set (foldl (assess_identifier target qid sl) out ids).2 q ↔
  l ∈ get_set out.2 q ∨ (q = qid ∧ ∃ tid, tid ∈ ids ∧ augments target sl tid l).
Proof.
  revert out. induction ids as [|tid ids IH]; intros out; cbn [foldl].
  - set_solver.
  - rewrite IH, assess_identifier_add. setoid_rewrite elem_of_cons.
    naive_solver.
Qed.

Lemma assess_item_dep target out qid data q t :
  q ∈ get_set (assess_item target out (qid, data)).1 t ↔
  q ∈ get_set out.1 t ∨
  (q = qid ∧ ∃ sl, assessed data sl t ∧ deprecates target sl t).
Proof.
  unfold assess_item, assessed. destruct (links data) as [sl|].
  - destruct (decide (sl = ∅)) as [->|Hne]; [naive_solver|].
    rewrite assess_identifiers_dep, elem_of_elements. naive_solver.
  - naive_solver.
Qed.

Lemma assess_item_add target out qid data q l :
  l ∈ get_set (assess_item target out (qid, data)).2 q ↔
  l ∈ get_set out.2 q ∨
  (q = qid ∧ ∃ sl tid, assessed data sl tid ∧ augments target sl tid l).
Proof.
  unfold assess_item, assessed. destruct (links data) as [sl|].
  - destruct (decide (sl = ∅)) as [->|Hne]; [naive_solver|].
    rewrite assess_identifiers_add. setoid_rewrite elem_of_elements.
    naive_solver.
  - naive_solver.
Qed.

Lemma assess_items_dep target items out q t :
  q ∈ get_set (foldl (assess_item target) out items).1 t ↔
  q ∈ get_set out.1 t ∨
  (∃ data sl, (q, data) ∈ items ∧ assessed data sl t ∧ deprecates target sl t).
Proof.
  revert out. induction items as [|[qid data] items IH]; intros out; cbn [foldl].
  - set_solver.
  - rewrite IH, assess_item_dep. setoid_rewrite elem_of_cons. naive_solver.
Qed.

Lemma assess_items_add target items out q l :
  l ∈ get_set (foldl (assess_item target) out items).2 q ↔
  l ∈ get_set out.2 q ∨
  (∃ data sl tid,
     (q, data) ∈ items ∧ assessed data sl tid ∧ augments target sl tid l).
Proof.
  revert out. induction items as [|[qid data] items IH]; intros out; cbn [foldl].
  - set_solver.
  - rewrite IH, assess_item_add. setoid_rewrite elem_of_cons. naive_solver.
Qed.

(** The whole run: which QIDs end up under a target identifier of
    [to_deprecate], and which links under a QID of [to_add]. *)
Lemma assess_to_deprecate source target dep add q t :
  q ∈ get_set (_assess source target dep add).1 t ↔
  q ∈ get_set dep t ∨
  (∃ data sl, source !! q = Some data ∧ assessed data sl t ∧
              deprecates target sl t).
Proof.
  unfold _assess. rewrite assess_items_dep. simpl.
  setoid_rewrite elem_of_map_to_list. done.
Qed.

Lemma assess_to_add source target dep add q l :
  l ∈ get_set (_assess source target dep add).2 q ↔
  l ∈ get_set add q ∨
  (∃ data sl tid, source !! q = Some data ∧ assessed data sl tid ∧
                  augments target sl tid l).
Proof.
  unfold _assess. rewrite assess_items_add. simpl.
  setoid_rewrite elem_of_map_to_list. done.
Qed.
End assess_facts.

(** Whenever a statement is marked for deprecation its QID also receives
    links: the run never deprecates without augmenting. *)
Lemma assess_deprecation_brings_links source target dep add qid tid :
  qid ∈ get_set (_assess source target dep add).1 tid →
  qid ∈ get_set dep tid ∨ get_set (_assess source target dep add).2 qid ≠ ∅.
Proof.
  rewrite assess_to_deprecate.
  intros [?|(data & sl & Hq & Has & tl & Ht & Hne & Hsh)]; [by left|right].
  destruct (set_choose_L (extra_links sl tl)) as [l Hl].
  { by apply no_shared_all_extra. }
  assert (l ∈ get_set (_assess source target dep add).2 qid) as Hin;
    [|intros Hempty; rewrite Hempty in Hin; set_solver].
  apply assess_to_add. right. exists data, sl, tid.
  split_and!; [done..|]. by exists tl.
Qed.

(** C1, as amended. For an identifier statement (QID, target-id) whose
    QID has a non-empty source link set and whose target-id is in the
    target collection with a non-empty link list, with
    shared = sourceLinks ∩ targetLinks and extra = targetLinks − sourceLinks:
    the loop body adds the QID under the target-id of the deprecation
    output exactly when shared is empty and adds extra under the QID of
    the augmentation output exactly when extra is non-empty; after the
    whole run the QID is under the target-id iff it was there before or
    shared is empty, and the links under the QID are those that were
    there before and the extra links of the QID's statements. The second
    test is evaluated whatever the first decided, but an empty shared set
    forces a non-empty extra set, so deprecation never fires alone. Both
    decisions, augmentation alone, and neither do occur (last three
    conjuncts: the two reconciliation examples of the specification and a
    fully corroborated statement). *)
Theorem assess_statement_decisions :
  (∀ source target dep add qid data tid sl tl,
     source !! qid = Some data →
     tid ∈ identifiers data →
     links data = Some sl →
     sl ≠ ∅ →
     target !! tid = Some tl →
     tl ≠ [] →
     let shared := shared_links sl tl in
     let extra := extra_links sl tl in
     let out := _assess source target dep add in
     assess_identifier target qid sl (dep, add) tid =
       (if decide (shared = ∅) then defaultdict_add dep tid qid else dep,
        if decide (extra = ∅) then add else defaultdict_update add qid extra)
     ∧ (qid ∈ get_set out.1 tid ↔ qid ∈ get_set dep tid ∨ shared = ∅)
     ∧ (∀ l, l ∈ get_set out.2 qid ↔
             l ∈ get_set add qid ∨
             ∃ tid' tl', tid' ∈ identifiers data ∧ target !! tid' = Some tl' ∧
                         l ∈ extra_links sl tl')
     ∧ extra ⊆ get_set out.2 qid
     ∧ (shared = ∅ → extra ≠ ∅))
  ∧ _assess {["Q2" := WikidataItem {["T2"]} (Some {["a"]})]}
            {["T2" := ["c"]]} ∅ ∅
    = ({["T2" := {["Q2"]}]}, {["Q2" := {["c"]}]})
  ∧ _assess {["Q1" := WikidataItem {["T1"]} (Some {["a"; "b"]})]}
            {["T1" := ["b"; "c"]]} ∅ ∅
    = (∅, {["Q1" := {["c"]}]})
  ∧ _assess {["Q3" := WikidataItem {["T3"]} (Some {["a"]})]}
            {["T3" := ["a"]]} ∅ ∅
    = (∅, ∅).
Proof.
  split; [|by vm_compute].
  intros source target dep add qid data tid sl tl Hq Hid Hl Hsl Ht Htl.
  cbn zeta.
  assert (∀ l, l ∈ get_set (_assess source target dep add).2 qid ↔
            l ∈ get_set add qid ∨
            ∃ tid' tl', tid' ∈ identifiers data ∧ target !! tid' = Some tl' ∧
                        l ∈ extra_links sl tl') as Hadd.
  { intros l. rewrite assess_to_add. split; (intros [?|H]; [by left|right]).
    - destruct H as (data' & sl' & tid' & Hq' & (Hl' & _ & Hid') & tl' & Ht' & Hin).
      simplify_eq. by exists tid', tl'.
    - destruct H as (tid' & tl' & Hid' & Ht' & Hin).
      exists data, sl, tid'. split_and!; [done..|]. by exists tl'. }
  split_and!.
  - by apply assess_identifier_fires.
  - rewrite assess_to_deprecate. split; (intros [?|H]; [by left|right]).
    + destruct H as (data' & sl' & Hq' & (Hl' & _) & tl' & Ht' & _ & Hsh).
      by simplify_eq.
    + exists data, sl. split_and!; [done..|]. by exists tl.
  - done.
  - intros l Hin. apply Hadd. right. by exists tid, tl.
  - by apply no_shared_all_extra.
Qed.

Lemma assess_statement_decisions_witness :
  let source : gmap string wikidata_item :=
    {["Q1" := WikidataItem {["T1"]} (Some {["a"; "b"]})]} in
  let target : gmap string (list string) := {["T1" := ["b"; "c"]]} in
  let out := _assess source target ∅ ∅ in
  ("Q1" ∈ get_set out.1 "T1" ↔
     "Q1" ∈ get_set (∅ : gmap string (gset string)) "T1" ∨
     shared_links {["a"; "b"]} ["b"; "c"] = ∅)
  ∧ extra_links {["a"; "b"]} ["b"; "c"] ⊆ get_set out.2 "Q1".
Proof.
  intros source target out.
  pose proof (proj1 assess_statement_decisions source target ∅ ∅
                "Q1" (WikidataItem {["T1"]} (Some {["a"; "b"]})) "T1"
                {["a"; "b"]} ["b"; "c"]) as H.
  cbn zeta in H.
  destruct H as (_ & Hdep & _ & Hsub & _).
  - reflexivity.
  - apply (bool_decide_unpack _). vm_compute. exact I.
  - reflexivity.
  - apply (bool_decide_unpack _). vm_compute. exact I.
  - reflexivity.
  - discriminate.
  - split; [exact Hdep | exact Hsub].
Defined.

(** C1, as stated, fails in its last part: the two decisions are not
    independent. No run marks a statement for deprecation while adding
    no link to its QID. *)
Lemma assess_deprecation_never_alone :
  ¬ ∃ source target qid tid,
      let out := _assess source target ∅ ∅ in
      qid ∈ get_set out.1 tid ∧ get_set out.2 qid = ∅.
Proof.
  intros (source & target & qid & tid & Hdep & Hadd).
  apply assess_deprecation_brings_links in Hdep as [Hdep|Hne]; [|done].
  unfold get_set in Hdep. rewrite lookup_empty in Hdep. set_solver.
Qed.

(** C10. A statement whose target-id is absent from the target
    collection, or is there with an empty link list, is skipped: the loop
    body returns both outputs as they were; over the whole run nothing is
    marked for deprecation under that target-id, and every link added to
    a QID comes from a statement with another target-id. *)
Theorem assess_skips_unlinked_target source target dep add tid :
  target !! tid = None ∨ target !! tid = Some [] →
  (∀ qid sl out, assess_identifier target qid sl out tid = out)
  ∧ (∀ q, q ∈ get_set (_assess source target dep add).1 tid ↔
          q ∈ get_set dep tid)
  ∧ (∀ q l, l ∈ get_set (_assess source target dep add).2 q ↔
            l ∈ get_set add q ∨
            ∃ data sl tid', tid' ≠ tid ∧ source !! q = Some data ∧
                            assessed data sl tid' ∧ augments target sl tid' l).
Proof.
  intros Hskip. split_and!.
  - intros qid sl out. by apply assess_identifier_skips.
  - intros q. rewrite assess_to_deprecate. split; [|by left].
    intros [?|(data & sl & _ & _ & tl & Ht & Hne & _)]; [done|].
    destruct Hskip; simplify_eq.
  - intros q l. rewrite assess_to_add.
    split; (intros [?|H]; [by left|right]).
    + destruct H as (data & sl & tid' & Hq & Has & Haug).
      exists data, sl, tid'. split_and!; [|done..].
      intros ->. destruct Haug as (tl & Ht & Hin).
      destruct Hskip; simplify_eq. rewrite extra_links_nil in Hin. set_solver.
    + destruct H as (data & sl & tid' & _ & Hq & Has & Haug).
      by exists data, sl, tid'.
Qed.

Lemma assess_skips_unlinked_target_witness :
  let source : gmap string wikidata_item :=
    {["Q1" := WikidataItem {["T1"; "T9"]} (Some {["a"]})]} in
  let target : gmap string (list string) := {["T1" := ["c"]; "T9" := []]} in
  (∀ qid sl out, assess_identifier target qid sl out "T9" = out)
  ∧ (∀ q, q ∈ get_set (_assess source target ∅ ∅).1 "T9" ↔
          q ∈ get_set (∅ : gmap string (gset string)) "T9").
Proof.
  intros source target.
  destruct (assess_skips_unlinked_target source target ∅ ∅ "T9")
    as (Hbody & Hdep & _).
  - right. reflexivity.
  - split; [exact Hbody | exact Hdep].
Defined.

(** ** Width reconciliation *)

Section width_reconciliation_facts.
Context {V : Type}.
Variable FEATURE_MISSING_VALUE : V.
Variable CLASSIFIERS : list string.


Lemma setitem_fresh (fv : feature_vectors V) name column :
  name ∉ (fv_columns fv).*1 →
  setitem fv name column =
    FeatureVectors (fv_index fv) (fv_columns fv ++ [(name, column)]).
Proof. intros Hfresh. unfold setitem. by rewrite decide_False. Qed.

Lemma setitem_index (fv : feature_vectors V) name column :
  fv_index (setitem fv name column) = fv_index fv.
Proof. done. Qed.

Lemma missing_label_inj (i j : nat) :
  "missing_" +:+ pretty i = "missing_" +:+ pretty j → i = j.
Proof. intros Heq. simplify_eq/=. by apply (inj pretty). Qed.

(** The padding loop from label [a] on, when none of its labels are
    taken. *)
Lemma pad_loop_fresh n : ∀ a (fv : feature_vectors V),
  (∀ i, a ≤ i < a + n → "missing_" +:+ pretty i ∉ (fv_columns fv).*1) →
  foldl (λ fv i, setitem fv ("missing_" +:+ pretty i)
                   (full (len fv) FEATURE_MISSING_VALUE)) fv (seq a n) =
  FeatureVectors (fv_index fv)
    (fv_columns fv ++
     ((λ i : nat, ("missing_" +:+ pretty i, full (len fv) FEATURE_MISSING_VALUE))
        <$> seq a n)).
Proof.
  induction n as [|n IH]; intros a fv Hfresh.
  - destruct fv. simpl. by rewrite app_nil_r.
  - cbn [seq foldl]. rewrite setitem_fresh by (apply Hfresh; lia).
    rewrite IH.
    + simpl. by rewrite <-app_assoc.
    + intros i Hi. simpl. rewrite fmap_app, elem_of_app.
      intros [Hin|Hin].
      * by apply (Hfresh i); [lia|].
      * apply list_elem_of_singleton in Hin.
        apply missing_label_inj in Hin. lia.
Qed.

(** Width reconciliation on a matrix that has none of the padding
    labels: the matrix comes back with exactly the expected number of
    columns, the original ones first and untouched, the others filled
    with the missing-value sentinel. *)
Lemma add_missing_feature_columns_pads c (fv : feature_vectors V) e :
  expected_features_of CLASSIFIERS c = ok e →
  shape1 fv ≤ e →
  (∀ i, i < e - shape1 fv → "missing_" +:+ pretty i ∉ (fv_columns fv).*1) →
  ∃ fv',
    _add_missing_feature_columns FEATURE_MISSING_VALUE CLASSIFIERS c fv = ok fv'
    ∧ shape1 fv' = e
    ∧ fv_index fv' = fv_index fv
    ∧ take (shape1 fv) (fv_columns fv') = fv_columns fv
    ∧ ∀ col, col ∈ drop (shape1 fv) (fv_columns fv') →
             col.2 = replicate (len fv) FEATURE_MISSING_VALUE.
Proof.
  intros He Hle Hfresh. unfold _add_missing_feature_columns.
  rewrite He. cbn [bind ok].
  destruct (decide (e ≠ shape1 fv)) as [Hne|Heq].
  - unfold range.
    replace (Z.to_nat (Z.of_nat e - Z.of_nat (shape1 fv)))
      with (e - shape1 fv) by lia.
    rewrite pad_loop_fresh by (intros i Hi; apply Hfresh; lia).
    eexists. split; [reflexivity|]. unfold shape1 in *. cbn.
    split_and!.
    + rewrite length_app, length_fmap, length_seq. lia.
    + done.
    + by rewrite take_app_length.
    + rewrite drop_app_length. intros col Hin.
      apply list_elem_of_fmap in Hin as (i & -> & _). done.
  - apply dec_stable in Heq. subst e. exists fv. split; [done|].
    unfold shape1. rewrite firstn_all, drop_all.
    split_and!; [done..|]. intros col Hin. by apply elem_of_nil in Hin.
Qed.

(** A matrix wider than the model expects goes through unchanged. *)
Lemma add_missing_feature_columns_wide c (fv : feature_vectors V) e :
  expected_features_of CLASSIFIERS c = ok e →
  e < shape1 fv →
  _add_missing_feature_columns FEATURE_MISSING_VALUE CLASSIFIERS c fv = ok fv.
Proof.
  intros He Hlt. unfold _add_missing_feature_columns.
  rewrite He. cbn [bind ok].
  rewrite decide_True by lia. unfold range.
  replace (Z.to_nat (Z.of_nat e - Z.of_nat (shape1 fv))) with 0 by lia.
  done.
Qed.

(** C3, as amended. When the matrix has strictly more columns than the
    model expects, the width-reconciliation step neither pads nor
    raises: it hands the matrix back unchanged, and inference is run on
    that matrix, so any failure is the model's own. *)
Theorem wide_matrix_reaches_inference {P}
    (predict prob : classifier → feature_vectors V → result P)
    c (fv : feature_vectors V) e :
  expected_features_of CLASSIFIERS c = ok e →
  e < shape1 fv →
  _add_missing_feature_columns FEATURE_MISSING_VALUE CLASSIFIERS c fv = ok fv
  ∧ predictions_of FEATURE_MISSING_VALUE CLASSIFIERS predict prob c fv =
      match c with
      | SVMClassifier _ => predict c fv
      | _ => prob c fv
      end.
Proof.
  intros He Hlt. pose proof (add_missing_feature_columns_wide _ _ _ He Hlt) as Hsame.
  split; [done|]. unfold predictions_of. rewrite Hsame. done.
Qed.

(** C8: what the code does with an object of an unsupported class.
    Such an object is an instance and has no [__name__]; building the
    message fails first, so the error is an [AttributeError] and the
    [ValueError] that names the supported kinds is never raised. *)
Theorem unsupported_instance_attribute_error cls (fv : feature_vectors V) :
  _add_missing_feature_columns FEATURE_MISSING_VALUE CLASSIFIERS
    (OtherObject cls None) fv =
    raise (AttributeError ("'" +:+ cls +:+ "' object has no attribute '__name__'")).
Proof. reflexivity. Qed.

(** Only an object that has a [__name__] (a class, a function) gets
    the configuration error. *)
Lemma unsupported_named_value_error cls name (fv : feature_vectors V) :
  _add_missing_feature_columns FEATURE_MISSING_VALUE CLASSIFIERS
    (OtherObject cls (Some name)) fv =
    raise (ValueError ("Unsupported classifier: " +:+ name +:+
                       ". It should be one of " +:+ repr_set CLASSIFIERS)).
Proof. reflexivity. Qed.
End width_reconciliation_facts.

Lemma wide_matrix_reaches_inference_witness :
  let fv := FeatureVectors [("Q1", "T1")] [("name", [70%Z]); ("url", [30%Z])] in
  _add_missing_feature_columns (-1)%Z ["nb"; "svm"] (NaiveBayesClassifier 1) fv
  = ok fv.
Proof.
  intros fv.
  refine (proj1 (wide_matrix_reaches_inference (-1)%Z ["nb"; "svm"]
                   (λ _ _, ok ()) (λ _ _, ok ())
                   (NaiveBayesClassifier 1) fv 1 _ _)).
  - reflexivity.
  - vm_compute. lia.
Defined.

(** C3, as stated, fails: a matrix of two columns for a model that
    expects one is not rejected; the step returns it as it is. *)
Lemma wide_matrix_not_rejected :
  let fv := FeatureVectors [("Q1", "T1")] [("name", [70%Z]); ("url", [30%Z])] in
  expected_features_of ["nb"; "svm"] (NaiveBayesClassifier 1) = inr 1
  ∧ shape1 fv = 2
  ∧ _add_missing_feature_columns (-1)%Z ["nb"; "svm"] (NaiveBayesClassifier 1) fv
    = inr fv.
Proof. by vm_compute. Qed.

(** C2, at a matrix the code writes itself. A first run pads a
    one-column chunk for a model that expects two columns; the frame it
    caches is that padded frame, with a column [missing_0]. A later run
    reads the cache for a model that expects three columns: padding
    assigns to [missing_0] again, and the matrix keeps its two columns
    instead of getting three. Where the cached column holds other values
    (rows of later chunks), they are overwritten: the first columns do
    not stay unchanged either. *)
Theorem padding_label_collision :
  let index := [("Q1", "T1"); ("Q2", "T2")] in
  let fv := FeatureVectors index [("name", [70; 20]%Z)] in
  let cached :=
    FeatureVectors index [("name", [70; 20]%Z); ("missing_0", [-1; -1]%Z)] in
  let merged :=
    FeatureVectors index [("name", [70; 20]%Z); ("missing_0", [-1; 55]%Z)] in
  first_chunk_frames (-1)%Z ["nb"; "svm"] (NaiveBayesClassifier 2) fv
    = inr (cached, cached)
  ∧ expected_features_of ["nb"; "svm"] (SVMClassifier (1, 3)) = inr 3
  ∧ shape1 cached = 2
  ∧ _add_missing_feature_columns (-1)%Z ["nb"; "svm"] (SVMClassifier (1, 3)) cached
    = inr cached
  ∧ _add_missing_feature_columns (-1)%Z ["nb"; "svm"] (SVMClassifier (1, 3)) merged
    = inr cached.
Proof. by vm_compute. Qed.

(** ** Field-exact-match veto *)

Ltac in_head := apply elem_of_cons; by left.
Ltac in_tail := apply elem_of_cons; by right.

Section veto_facts.
Context {score : Type} `{EqDecision score}.
Variable zero : score.
Implicit Types (wikidata target : DataFrame) (fields : list string).
Implicit Types (raw : score) (acc : gset string * gset string).

Lemma df_loc_cell_values frame label column row :
  df_rows frame !! label = Some row →
  column ∈ df_columns frame →
  df_loc frame label column = ok (default nan (row !! column))
  ∧ cell_values frame label column =
      match default nan (row !! column) with
      | values l => list_to_set l
      | nan | float64_nan => ∅
      end.
Proof.
  intros Hrow Hcol. unfold df_loc, cell_values.
  rewrite Hrow. by rewrite !decide_True.
Qed.

Lemma cell_values_no_column frame label column :
  column ∉ df_columns frame → cell_values frame label column = ∅.
Proof.
  intros Hcol. unfold cell_values.
  destruct (df_rows frame !! label); [|done]. by rewrite decide_False.
Qed.

(** One side of one turn of the loop: it fails on a NaN of a float64
    column, and otherwise adds the record's values under the column to
    the set built so far. *)
Lemma collect_side frame label column (vs : gset string) :
  (column ∈ df_columns frame → is_Some (df_rows frame !! label)) →
  (if decide (column ∈ df_columns frame)
   then let* c := df_loc frame label column in update_values vs c
   else ok vs)
  = if has_float64_nan frame label column
    then raise (TypeError "'numpy.float64' object is not iterable")
    else ok (vs ∪ cell_values frame label column).
Proof.
  intros Hrow. unfold has_float64_nan.
  destruct (decide (column ∈ df_columns frame)) as [Hcol|Hcol].
  - destruct (Hrow Hcol) as [row Hr].
    destruct (df_loc_cell_values _ _ _ _ Hr Hcol) as [-> ->]. cbn [bind ok].
    rewrite bool_decide_eq_true_2 by done. rewrite Hr. cbn [andb].
    destruct (default nan (row !! column)); cbn [update_values]; [|done..].
    by rewrite (right_id_L ∅ (∪)).
  - rewrite bool_decide_eq_false_2 by done. cbn [andb].
    rewrite cell_values_no_column by done. by rewrite (right_id_L ∅ (∪)).
Qed.

Lemma collect_column_values qid tid wikidata target acc column :
  (column ∈ df_columns wikidata → is_Some (df_rows wikidata !! qid)) →
  (column ∈ df_columns target → is_Some (df_rows target !! tid)) →
  collect_column qid tid wikidata target acc column =
    if has_float64_nan wikidata qid column || has_float64_nan target tid column
    then raise (TypeError "'numpy.float64' object is not iterable")
    else ok (acc.1 ∪ cell_values wikidata qid column,
             acc.2 ∪ cell_values target tid column).
Proof.
  intros Hwd Htg. destruct acc as [a b]. unfold collect_column.
  rewrite (collect_side wikidata) by done.
  destruct (has_float64_nan wikidata qid column); [done|]. cbn [bind ok orb].
  rewrite (collect_side target) by done.
  by destruct (has_float64_nan target tid column).
Qed.

(** The loop fails when a field holds a NaN of a float64 column on
    either record, and otherwise builds the two unions the specification
    speaks of. *)
Lemma collect_fields qid tid wikidata target fields : ∀ acc,
  readable wikidata qid fields →
  readable target tid fields →
  for_each (collect_column qid tid wikidata target) acc fields =
    if existsb (λ column, has_float64_nan wikidata qid column
                          || has_float64_nan target tid column) fields
    then raise (TypeError "'numpy.float64' object is not iterable")
    else ok (acc.1 ∪ override_values wikidata qid fields,
             acc.2 ∪ override_values target tid fields).
Proof.
  unfold override_values.
  induction fields as [|column fields IH]; intros acc Hwd Htg;
    cbn [for_each existsb].
  - destruct acc. cbn. by rewrite !(right_id_L ∅ (∪)).
  - rewrite collect_column_values.
    + destruct (has_float64_nan wikidata qid column
                || has_float64_nan target tid column); [done|].
      cbn [bind ok orb]. rewrite IH.
      * destruct (existsb _ fields); [done|]. cbn. by rewrite !(assoc_L (∪)).
      * intros c Hc. apply Hwd. in_tail.
      * intros c Hc. apply Htg. in_tail.
    + apply Hwd. in_head.
    + apply Htg. in_head.
Qed.

Lemma zero_when_not_exact_match_run qid tid raw (fa : fields_arg) wikidata target :
  readable wikidata qid (fields_list fa) →
  readable target tid (fields_list fa) →
  _zero_when_not_exact_match zero ((qid, tid), raw) fa wikidata target =
    if existsb (λ column, has_float64_nan wikidata qid column
                          || has_float64_nan target tid column) (fields_list fa)
    then raise (TypeError "'numpy.float64' object is not iterable")
    else ok (if decide (override_values wikidata qid (fields_list fa) ##
                        override_values target tid (fields_list fa))
             then zero else raw).
Proof.
  intros Hwd Htg. unfold _zero_when_not_exact_match.
  rewrite collect_fields by done. destruct (existsb _ _); [done|].
  cbn [bind ok fst snd]. by rewrite !(left_id_L ∅ (∪)).
Qed.

Lemma iterable_existsb qid tid wikidata target fields :
  iterable wikidata qid fields →
  iterable target tid fields →
  existsb (λ column, has_float64_nan wikidata qid column
                     || has_float64_nan target tid column) fields = false.
Proof.
  intros Hwd Htg. induction fields as [|column fields IH]; [done|].
  cbn [existsb]. rewrite Hwd, Htg by in_head. cbn [orb].
  apply IH; intros c Hc; [apply Hwd|apply Htg]; in_tail.
Qed.

Lemma zero_when_not_exact_match_spec qid tid raw (fa : fields_arg) wikidata target :
  readable wikidata qid (fields_list fa) →
  readable target tid (fields_list fa) →
  iterable wikidata qid (fields_list fa) →
  iterable target tid (fields_list fa) →
  _zero_when_not_exact_match zero ((qid, tid), raw) fa wikidata target =
    ok (if decide (override_values wikidata qid (fields_list fa) ##
                   override_values target tid (fields_list fa))
        then zero else raw).
Proof.
  intros Hwd Htg Hiw Hit. rewrite zero_when_not_exact_match_run by done.
  by rewrite iterable_existsb.
Qed.

(** A NaN of a float64 column under one of the fields makes the veto
    fail, whatever the other values are. *)
Lemma zero_when_not_exact_match_float64_nan qid tid raw (fa : fields_arg)
    wikidata target column :
  readable wikidata qid (fields_list fa) →
  readable target tid (fields_list fa) →
  column ∈ fields_list fa →
  has_float64_nan wikidata qid column = true
  ∨ has_float64_nan target tid column = true →
  _zero_when_not_exact_match zero ((qid, tid), raw) fa wikidata target =
    raise (TypeError "'numpy.float64' object is not iterable").
Proof.
  intros Hwd Htg Hin Hnan. rewrite zero_when_not_exact_match_run by done.
  assert (existsb (λ column, has_float64_nan wikidata qid column
                             || has_float64_nan target tid column)
            (fields_list fa) = true) as ->; [|done].
  apply existsb_exists. exists column. split; [by apply list_elem_of_In|].
  apply orb_true_iff. exact Hnan.
Qed.

Lemma apply_veto_rows (fa : fields_arg) wikidata target predictions :
  all_readable predictions wikidata target (fields_list fa) →
  all_iterable predictions wikidata target (fields_list fa) →
  apply_rows
    (λ p, let* s := _zero_when_not_exact_match zero p fa wikidata target in
          ok (p.1, s))
    predictions
  = ok ((λ p : prediction,
           (p.1, if decide (override_values wikidata p.1.1 (fields_list fa) ##
                            override_values target p.1.2 (fields_list fa))
                 then zero else p.2)) <$> predictions).
Proof.
  induction predictions as [|[[qid tid] raw] predictions IH]; intros Hall Hit; [done|].
  cbn [apply_rows]. destruct (Hall qid tid raw) as [Hwd Htg]; [in_head|].
  destruct (Hit qid tid raw) as [Hiw Hig]; [in_head|].
  rewrite zero_when_not_exact_match_spec by done. cbn [bind ok].
  rewrite IH; [done| |].
  - intros q t r Hin. apply (Hall q t r). in_tail.
  - intros q t r Hin. apply (Hit q t r). in_tail.
Qed.

(** The veto where it goes through. With override fields configured,
    every predicted pair readable in both frames and no NaN of a float64
    column under the fields, the correction returns a series with the
    same pairs in the same order in which a pair scores exactly 0.0 when
    the union of the source record's values over the fields and that of
    the target record's are disjoint, whatever the raw score, and keeps
    its raw score when the two share a value. With no override field the
    correction returns the predictions as they are. *)
Theorem post_classification_veto (fa : fields_arg) wikidata target
    (predictions : list prediction) :
  (truthy fa = true →
   all_readable predictions wikidata target (fields_list fa) →
   all_iterable predictions wikidata target (fields_list fa) →
   ∃ corrected,
     _post_classification_blocking zero predictions wikidata target fa
       = ok corrected
     ∧ corrected.*1 = predictions.*1
     ∧ ∀ i qid tid raw,
         predictions !! i = Some ((qid, tid), raw) →
         let wd_values := override_values wikidata qid (fields_list fa) in
         let target_values := override_values target tid (fields_list fa) in
         (wd_values ## target_values →
            corrected !! i = Some ((qid, tid), zero)
            ∧ _zero_when_not_exact_match zero ((qid, tid), raw) fa wikidata target
              = ok zero)
         ∧ ((∃ v, v ∈ wd_values ∧ v ∈ target_values) →
            corrected !! i = Some ((qid, tid), raw)
            ∧ _zero_when_not_exact_match zero ((qid, tid), raw) fa wikidata target
              = ok raw))
  ∧ (truthy fa = false →
     _post_classification_blocking zero predictions wikidata target fa
       = ok predictions).
Proof.
  split.
  - intros Htrue Hall Hit. unfold _post_classification_blocking. rewrite Htrue.
    rewrite apply_veto_rows by done. eexists. split; [reflexivity|]. split.
    + rewrite <-list_fmap_compose. by apply list_fmap_ext.
    + intros i qid tid raw Hi. cbn zeta.
      destruct (Hall qid tid raw) as [Hwd Htg].
      { by eapply list_elem_of_lookup_2. }
      destruct (Hit qid tid raw) as [Hiw Hig].
      { by eapply list_elem_of_lookup_2. }
      rewrite zero_when_not_exact_match_spec by done.
      unfold prediction in *. rewrite list_lookup_fmap, Hi.
      cbn [fmap option_fmap option_map fst snd].
      split.
      * intros Hdisj. by rewrite decide_True.
      * intros (v & Hv1 & Hv2). rewrite decide_False; [done|].
        intros Hdisj. by apply (Hdisj v).
  - intros Hfalse. unfold _post_classification_blocking. by rewrite Hfalse.
Qed.

Lemma no_value_cell frame label column :
  no_value frame label column →
  (column ∈ df_columns frame → is_Some (df_rows frame !! label))
  ∧ cell_values frame label column = ∅
  ∧ has_float64_nan frame label column = false.
Proof.
  unfold no_value, df_loc, cell_values, has_float64_nan.
  destruct (decide (column ∈ df_columns frame)) as [Hcol|Hcol].
  - intros [?|Hloc]; [done|]. rewrite bool_decide_eq_true_2 by done.
    destruct (df_rows frame !! label) as [row|].
    + split; [by eauto|].
      destruct Hloc as [Hloc|Hloc]; injection Hloc as ->; done.
    + destruct Hloc as [Hloc|Hloc]; discriminate Hloc.
  - intros _. rewrite bool_decide_eq_false_2 by done.
    split; [done|]. by destruct (df_rows frame !! label).
Qed.

Lemma no_value_fields frame label fields :
  (∀ column, column ∈ fields → no_value frame label column) →
  readable frame label fields ∧ iterable frame label fields
  ∧ override_values frame label fields = ∅.
Proof.
  intros Hno. split_and!.
  - intros column Hin. by apply no_value_cell, Hno.
  - intros column Hin. by apply no_value_cell, Hno.
  - unfold override_values. induction fields as [|column fields IH]; [done|].
    cbn. rewrite (proj1 (proj2 (no_value_cell _ _ _ (Hno column ltac:(in_head))))).
    rewrite IH; [by rewrite (left_id_L ∅ (∪))|].
    intros c Hc. apply Hno. in_tail.
Qed.

(** The veto without values, where it goes through. With override
    fields configured, a pair whose source record and target record both
    have no value under any of them (column absent, cell the object
    [numpy.nan], or empty list) gets the score 0.0: both collected sets
    are empty, and two empty sets are disjoint. *)
Theorem veto_without_values (fa : fields_arg) wikidata target qid tid raw :
  truthy fa = true →
  (∀ column, column ∈ fields_list fa →
     no_value wikidata qid column ∧ no_value target tid column) →
  override_values wikidata qid (fields_list fa) = ∅
  ∧ override_values target tid (fields_list fa) = ∅
  ∧ _zero_when_not_exact_match zero ((qid, tid), raw) fa wikidata target = ok zero
  ∧ _post_classification_blocking zero [((qid, tid), raw)] wikidata target fa
    = ok [((qid, tid), zero)].
Proof.
  intros Htrue Hno.
  destruct (no_value_fields wikidata qid (fields_list fa)) as (Hrw & Hiw & Hew).
  { intros c Hc. by apply Hno. }
  destruct (no_value_fields target tid (fields_list fa)) as (Hrt & Hit & Het).
  { intros c Hc. by apply Hno. }
  assert (_zero_when_not_exact_match zero ((qid, tid), raw) fa wikidata target
          = ok zero) as Hzero.
  { rewrite zero_when_not_exact_match_spec by done.
    rewrite Hew, Het. by rewrite decide_True by set_solver. }
  split_and!; [done..|].
  unfold _post_classification_blocking. rewrite Htrue.
  cbn [apply_rows]. by rewrite Hzero.
Qed.
End veto_facts.

(** ** Self-reference override *)

Section pattern_facts.
Variable unicode_decimal : string → bool.
Implicit Types (s pre ds rest : list string) (ch : string) (c : ascii).

Lemma append_cons c (s s' : string) : String c s +:+ s' = String c (s +:+ s').
Proof. reflexivity. Qed.

Lemma append_nil (s : string) : EmptyString +:+ s = s.
Proof. reflexivity. Qed.

(** The characters of a string are its bytes, cut into pieces. *)
Lemma text_chars (u : string) : text (chars u) = u.
Proof.
  induction u as [|c u IH]; [done|]. cbn [chars].
  destruct (chars u) as [|ch chs].
  - cbn in IH. by subst u.
  - cbn [text foldr] in IH. destruct (continues u); cbn [text foldr].
    + by rewrite append_cons, IH.
    + by rewrite append_cons, append_nil, IH.
Qed.

Lemma span_digits_all ds :
  all_digits unicode_decimal ds → span_digits unicode_decimal ds = (ds, []).
Proof.
  unfold all_digits. induction ds as [|ch ds IH]; intros Hall; [done|].
  apply Forall_cons in Hall as [Hc Hds].
  cbn [span_digits]. rewrite Hc. by rewrite IH.
Qed.

(** Scanning digits never gets past a [Q]. *)
Lemma span_digits_stops pre rest :
  ∃ d r, span_digits unicode_decimal (pre ++ "Q" :: rest) = (d, r ++ "Q" :: rest).
Proof.
  induction pre as [|ch pre (d & r & IH)].
  - by exists [], [].
  - cbn [app span_digits]. destruct (is_digit unicode_decimal ch).
    + rewrite IH. by exists (ch :: d), r.
    + by exists [], (ch :: pre).
Qed.

Lemma at_dollar_before_qid r rest :
  at_dollar (r ++ "Q" :: rest) = false.
Proof.
  unfold at_dollar. apply bool_decide_eq_false.
  destruct r as [|ch [|ch' r]]; cbn [app]; intros [?|?]; simplify_eq.
Qed.

(** The pattern fails wherever a later [Q] follows. *)
Lemma match_qid_before ch pre rest :
  match_qid unicode_decimal (ch :: pre ++ "Q" :: rest) = None.
Proof.
  unfold match_qid. destruct (decide (ch = "Q")); [|done].
  destruct (span_digits_stops pre rest) as (d & r & ->).
  by rewrite at_dollar_before_qid, andb_false_r.
Qed.

(** On a URL that ends in a Q-identifier the search finds that
    identifier. *)
Lemma re_search_qid_ends u q :
  ends_in_qid unicode_decimal u q → re_search_qid unicode_decimal u = Some q.
Proof.
  intros (pre & ds & Hu & -> & Hne & Hds). unfold re_search_qid. rewrite Hu.
  clear Hu. induction pre as [|ch pre IH].
  - cbn [app search_qid match_qid].
    rewrite decide_True by done. rewrite span_digits_all by done.
    by rewrite bool_decide_eq_true_2.
  - cbn [app search_qid]. by rewrite match_qid_before.
Qed.
End pattern_facts.

Section self_reference_facts.
Context {score : Type} `{EqDecision score}.
Variable zero one : score.
Variable URL : string.
Variable unicode_decimal : string → bool.

(** The code's own test on a URL: it holds 'wikidata' and the pattern
    matches. *)
Lemma first_wikidata_link_skip qid (raw : score) pre urls :
  (∀ v, v ∈ pre → ¬ (str_in "wikidata" v = true
                     ∧ is_Some (re_search_qid unicode_decimal v))) →
  first_wikidata_link zero one unicode_decimal qid raw (pre ++ urls) =
  first_wikidata_link zero one unicode_decimal qid raw urls.
Proof.
  induction pre as [|v pre IH]; intros Hpre; [done|].
  cbn [app first_wikidata_link]. rewrite IH by (intros w Hw; apply Hpre; in_tail).
  destruct (bool_decide (v ≠ EmptyString)); [|done]. cbn [andb].
  destruct (str_in "wikidata" v) eqn:Hin; [|done].
  destruct (re_search_qid unicode_decimal v) as [g|] eqn:Hg; [|done].
  destruct (Hpre v); [in_head|]. split; [done|]. by eexists.
Qed.

Lemma str_in_nonempty sub u :
  sub ≠ EmptyString → str_in sub u = true → u ≠ EmptyString.
Proof. intros Hsub Hin ->. destruct sub; [done|]. discriminate Hin. Qed.

(** C5, as amended. Of the URLs of the target record, the first one
    that holds 'wikidata' and that the pattern matches decides: when
    that URL ends in a Q-identifier the corrected score is 1.0 if the
    identifier is the QID of the pair and 0.0 otherwise, whatever the
    raw score. The digits of the identifier are those the pattern takes
    for digits, the Unicode decimal digits. *)
Theorem self_reference_first_link target qid tid (raw : score) urls pre u post q :
  df_loc target tid URL = ok (values urls) →
  urls = pre ++ u :: post →
  (∀ v, v ∈ pre → ¬ (str_in "wikidata" v = true
                     ∧ is_Some (re_search_qid unicode_decimal v))) →
  str_in "wikidata" u = true →
  ends_in_qid unicode_decimal u q →
  _one_when_wikidata_link_correct zero one URL unicode_decimal
    ((qid, tid), raw) target =
    ok (if decide (qid = q) then one else zero).
Proof.
  intros Hloc -> Hpre Hin Hq. unfold _one_when_wikidata_link_correct.
  rewrite Hloc. cbn [bind ok]. rewrite first_wikidata_link_skip by done.
  cbn [first_wikidata_link].
  rewrite bool_decide_eq_true_2
    by (apply (str_in_nonempty "wikidata"); [done | exact Hin]).
  rewrite Hin. cbn [andb]. by rewrite (re_search_qid_ends _ _ _ Hq).
Qed.
End self_reference_facts.

(** ** Thresholding and deduplication *)

Section threshold_facts.
Context {A K : Type} `{EqDecision K}.
Variable key : A → K.

Lemma first_by_key_subseteq seen (l : list A) x :
  x ∈ first_by_key key seen l → x ∈ l.
Proof.
  revert seen. induction l as [|y l IH]; intros seen; cbn; [done|].
  destruct (decide (key y ∈ seen)).
  - intros Hx. apply elem_of_cons. right. by eapply IH.
  - rewrite !elem_of_cons. intros [->|Hx]; [by left|right]. by eapply IH.
Qed.

(** Rows that survived once survive again. *)
Lemma first_by_key_idemp (l : list A) : ∀ seen,
  first_by_key key seen (first_by_key key seen l) = first_by_key key seen l.
Proof.
  induction l as [|x l IH]; intros seen; cbn; [done|].
  destruct (decide (key x ∈ seen)) as [Hin|Hin]; [done|].
  cbn. rewrite decide_False by done. by rewrite IH.
Qed.

Lemma filter_all (P : A → Prop) `{∀ x, Decision (P x)} (l : list A) :
  (∀ x, x ∈ l → P x) → filter P l = l.
Proof.
  induction l as [|x l IH]; intros Hall; [done|].
  rewrite filter_cons_True by (apply Hall; in_head).
  rewrite IH; [done|]. intros y Hy. apply Hall. in_tail.
Qed.

Lemma filter_first_by_key_idemp (P : A → Prop) `{∀ x, Decision (P x)} (l : list A) :
  first_by_key key [] (filter P (first_by_key key [] (filter P l))) =
  first_by_key key [] (filter P l).
Proof.
  rewrite (filter_all P (first_by_key key [] (filter P l))).
  - apply first_by_key_idemp.
  - intros x Hx. apply first_by_key_subseteq in Hx.
    by apply list_elem_of_filter in Hx as [? _].
Qed.
End threshold_facts.

(** C6. Keeping the predictions at or above the threshold and then
    dropping duplicates, the first occurrence staying, is idempotent: a
    second application changes nothing. This holds of the step as the
    code has it, where [drop_duplicates] compares the scores of the
    series, and of the step as the specification words it, where the
    pairs are compared. *)
Theorem threshold_dedup_idempotent {score : Type} `{EqDecision score}
    (ge : score → score → bool) (threshold : score)
    (predictions : list ((string * string) * score)) :
  threshold_dedup ge threshold (threshold_dedup ge threshold predictions)
    = threshold_dedup ge threshold predictions
  ∧ threshold_dedup_pairs ge threshold
      (threshold_dedup_pairs ge threshold predictions)
    = threshold_dedup_pairs ge threshold predictions.
Proof.
  split.
  - unfold threshold_dedup, drop_duplicates, at_least.
    apply (filter_first_by_key_idemp snd).
  - unfold threshold_dedup_pairs. apply (filter_first_by_key_idemp fst).
Qed.

(** ** Nested cross-validation *)

(** C7. Asked for a single-layer or a multi-layer perceptron, nested
    k-fold with grid search raises [NotImplementedError] with the message
    that grid search for that classifier is not supported, and has called
    no collaborator: the dataset is not built and no fold is run. *)
Theorem nested_grid_search_rejects_neural {S M G : Type}
    (SINGLE_LAYER_PERCEPTRON MULTI_LAYER_PERCEPTRON : string)
    (best_score_ test_score : nat → S) (best_estimator_ : nat → M)
    (classifier : string) (param_grid : G) (catalog entity : string) (k : nat)
    (scoring dir_io : string) :
  classifier = SINGLE_LAYER_PERCEPTRON ∨ classifier = MULTI_LAYER_PERCEPTRON →
  nested_k_fold_with_grid_search SINGLE_LAYER_PERCEPTRON MULTI_LAYER_PERCEPTRON
    best_score_ test_score best_estimator_
    classifier param_grid catalog entity k scoring dir_io
  = ([], raise (NotImplementedError
                  ("Grid search for " +:+ classifier +:+ " is not supported"))).
Proof.
  intros Hkind. unfold nested_k_fold_with_grid_search.
  rewrite decide_True; [done|].
  rewrite !elem_of_cons. destruct Hkind; auto.
Qed.

(** For any other classifier the first thing the function does is build
    the dataset, and each of the [k] outer folds is fitted and scored. *)
Lemma nested_grid_search_runs {S M G : Type}
    (SINGLE_LAYER_PERCEPTRON MULTI_LAYER_PERCEPTRON : string)
    (best_score_ test_score : nat → S) (best_estimator_ : nat → M)
    (classifier : string) (param_grid : G) (catalog entity : string) (k : nat)
    (scoring dir_io : string) :
  classifier ≠ SINGLE_LAYER_PERCEPTRON →
  classifier ≠ MULTI_LAYER_PERCEPTRON →
  ∃ trace r,
    nested_k_fold_with_grid_search SINGLE_LAYER_PERCEPTRON MULTI_LAYER_PERCEPTRON
      best_score_ test_score best_estimator_
      classifier param_grid catalog entity k scoring dir_io
    = (build_dataset "training" catalog entity dir_io :: trace, ok r)
    ∧ length (best_models r) = k
    ∧ ∀ i, i < k → grid_search_fit i ∈ trace.
Proof.
  intros Hs Hm. unfold nested_k_fold_with_grid_search.
  rewrite decide_False by (rewrite !elem_of_cons, elem_of_nil; naive_solver).
  eexists _, _. split; [reflexivity|]. cbn [best_models]. split.
  - by rewrite length_fmap, length_seq.
  - intros i Hi. do 2 (apply elem_of_cons; right).
    apply list_elem_of_In, in_flat_map. exists i. split.
    + apply in_seq. lia.
    + by left.
Qed.

(** ** The properties at concrete inputs *)

Lemma post_classification_veto_witness :
  let wikidata :=
    mkDataFrame {["name"]}
      {["Q1" := {["name" := values ["john"; "smith"]]};
        "Q2" := {["name" := values ["jones"]]}]} in
  let target :=
    mkDataFrame {["name"]} {["T1" := {["name" := values ["smith"]]}]} in
  let raw := Q2Qc (9 # 10) in
  ∃ corrected,
    _post_classification_blocking 0%Qc [(("Q1", "T1"), raw); (("Q2", "T1"), raw)]
      wikidata target (FieldList ["name"]) = ok corrected
    ∧ corrected !! 0 = Some (("Q1", "T1"), raw)
    ∧ corrected !! 1 = Some (("Q2", "T1"), 0%Qc).
Proof.
  intros wikidata target raw.
  destruct (proj1 (post_classification_veto 0%Qc (FieldList ["name"])
                     wikidata target [(("Q1", "T1"), raw); (("Q2", "T1"), raw)]))
    as (corrected & Heq & _ & Hrows).
  - reflexivity.
  - intros qid tid r Hin. apply elem_of_cons in Hin as [Hin|Hin].
    + injection Hin as -> -> ->.
      split; intros column _ _; eexists; reflexivity.
    + apply list_elem_of_singleton in Hin. injection Hin as -> -> ->.
      split; intros column _ _; eexists; reflexivity.
  - intros qid tid r Hin. apply elem_of_cons in Hin as [Hin|Hin].
    + injection Hin as -> -> ->.
      split; intros column Hc; apply list_elem_of_singleton in Hc; subst column;
        reflexivity.
    + apply list_elem_of_singleton in Hin. injection Hin as -> -> ->.
      split; intros column Hc; apply list_elem_of_singleton in Hc; subst column;
        reflexivity.
  - exists corrected. split; [exact Heq|]. split.
    + apply (Hrows 0 "Q1" "T1" raw eq_refl). exists "smith".
      split; apply (bool_decide_unpack _); vm_compute; exact I.
    + apply (Hrows 1 "Q2" "T1" raw eq_refl).
      apply (bool_decide_unpack _). vm_compute. exact I.
Defined.

Lemma veto_without_values_witness :
  let wikidata := mkDataFrame {["name"]} {["Q1" := {["name" := nan]}]} in
  let target := mkDataFrame {["url"]} {["T1" := {["url" := values ["u"]]}]} in
  _zero_when_not_exact_match 0%Qc (("Q1", "T1"), Q2Qc (9 # 10))
    (FieldList ["name"]) wikidata target = ok 0%Qc.
Proof.
  intros wikidata target.
  refine (proj1 (proj2 (proj2
    (veto_without_values 0%Qc (FieldList ["name"]) wikidata target
       "Q1" "T1" (Q2Qc (9 # 10)) _ _)))).
  - reflexivity.
  - intros column Hin. apply list_elem_of_singleton in Hin. subst column. split.
    + right. left. reflexivity.
    + left. apply (bool_decide_unpack _). vm_compute. exact I.
Defined.

(** C4. The veto on a pair whose source record has, under the one
    override field, a NaN of a float64 column (no record of the chunk
    has a URL), and whose target record has a URL: the two value sets
    are disjoint, the first being empty, and the code does not return
    0.0: the identity test [values is not nan] lets the NaN through, and
    [set(values)] raises a [TypeError], from
    [_zero_when_not_exact_match] and so from the whole correction. *)
Theorem veto_disjoint_float64_nan :
  let wikidata := mkDataFrame {["url"]} {["Q1" := {["url" := float64_nan]}]} in
  let target :=
    mkDataFrame {["url"]}
      {["T1" := {["url" := values ["https://example.org/smith"]]}]} in
  let fields := FieldList ["url"] in
  let p := (("Q1", "T1"), Q2Qc (9 # 10)) in
  truthy fields = true
  ∧ override_values wikidata "Q1" (fields_list fields)
    ## override_values target "T1" (fields_list fields)
  ∧ _zero_when_not_exact_match 0%Qc p fields wikidata target
    = raise (TypeError "'numpy.float64' object is not iterable")
  ∧ _post_classification_blocking 0%Qc [p] wikidata target fields
    = raise (TypeError "'numpy.float64' object is not iterable").
Proof.
  intros wikidata target fields p. split_and!.
  - reflexivity.
  - apply (bool_decide_unpack _). vm_compute. exact I.
  - reflexivity.
  - reflexivity.
Qed.

(** C9. The veto on a pair without values under the one override
    field: the source record has a NaN of a float64 column under it (no
    record of the chunk has a URL), the target frame lacks the column.
    Both value sets are empty, and the code does not return 0.0: the
    identity test [values is not nan] lets the NaN through, and
    [set(values)] raises a [TypeError]. With the object [numpy.nan] in
    the same cell the score is 0.0. *)
Theorem veto_without_values_float64_nan :
  let wikidata := mkDataFrame {["url"]} {["Q1" := {["url" := float64_nan]}]} in
  let wikidata' := mkDataFrame {["url"]} {["Q1" := {["url" := nan]}]} in
  let target := mkDataFrame {["name"]} {["T1" := {["name" := values ["smith"]]}]} in
  let fields := FieldList ["url"] in
  let p := (("Q1", "T1"), Q2Qc (9 # 10)) in
  truthy fields = true
  ∧ override_values wikidata "Q1" (fields_list fields) = ∅
  ∧ override_values target "T1" (fields_list fields) = ∅
  ∧ _zero_when_not_exact_match 0%Qc p fields wikidata target
    = raise (TypeError "'numpy.float64' object is not iterable")
  ∧ _zero_when_not_exact_match 0%Qc p fields wikidata' target = ok 0%Qc.
Proof.
  intros wikidata wikidata' target fields p. split_and!.
  - reflexivity.
  - apply (bool_decide_unpack _). vm_compute. exact I.
  - apply (bool_decide_unpack _). vm_compute. exact I.
  - reflexivity.
  - reflexivity.
Qed.

Lemma q42_ends_in_qid unicode_decimal :
  ends_in_qid unicode_decimal "https://www.wikidata.org/wiki/Q42" "Q42".
Proof.
  exists (chars "https://www.wikidata.org/wiki/"), ["4"; "2"].
  split_and!; [reflexivity | reflexivity | discriminate |].
  unfold all_digits. repeat constructor.
Defined.

Lemma self_reference_first_link_witness :
  let target :=
    mkDataFrame {["url"]}
      {["T1" := {["url" := values ["https://www.wikidata.org/wiki/Q42"]]}]} in
  _one_when_wikidata_link_correct 0%Qc 1%Qc "url" arabic_indic
    (("Q42", "T1"), Q2Qc (3 # 10)) target = ok 1%Qc
  ∧ _one_when_wikidata_link_correct 0%Qc 1%Qc "url" arabic_indic
      (("Q7", "T1"), Q2Qc (9 # 10)) target = ok 0%Qc.
Proof.
  intros target. split.
  - refine (self_reference_first_link 0%Qc 1%Qc "url" arabic_indic target
              "Q42" "T1" (Q2Qc (3 # 10)) _ []
              "https://www.wikidata.org/wiki/Q42" [] "Q42" _ _ _ _
              (q42_ends_in_qid arabic_indic)).
    + reflexivity.
    + reflexivity.
    + intros v Hv. inversion Hv.
    + reflexivity.
  - refine (self_reference_first_link 0%Qc 1%Qc "url" arabic_indic target
              "Q7" "T1" (Q2Qc (9 # 10)) _ []
              "https://www.wikidata.org/wiki/Q42" [] "Q42" _ _ _ _
              (q42_ends_in_qid arabic_indic)).
    + reflexivity.
    + reflexivity.
    + intros v Hv. inversion Hv.
    + reflexivity.
Defined.

(** C5, as stated, fails on a record with two such URLs: the record
    carries a URL that holds 'wikidata' and ends in Q42, the QID of the
    pair, and the corrected score is 0.0, because an earlier URL of the
    record ends in Q7. *)
Lemma later_wikidata_link_ignored :
  let urls := ["https://www.wikidata.org/wiki/Q7";
               "https://www.wikidata.org/wiki/Q42"] in
  let target := mkDataFrame {["url"]} {["T1" := {["url" := values urls]}]} in
  df_loc target "T1" "url" = ok (values urls)
  ∧ "https://www.wikidata.org/wiki/Q42" ∈ urls
  ∧ str_in "wikidata" "https://www.wikidata.org/wiki/Q42" = true
  ∧ ends_in_qid arabic_indic "https://www.wikidata.org/wiki/Q42" "Q42"
  ∧ _one_when_wikidata_link_correct 0%Qc 1%Qc "url" arabic_indic
      (("Q42", "T1"), Q2Qc (9 # 10)) target = ok 0%Qc
  ∧ 0%Qc ≠ 1%Qc.
Proof.
  intros urls target. split_and!.
  - reflexivity.
  - apply (bool_decide_unpack _). vm_compute. exact I.
  - reflexivity.
  - exact (q42_ends_in_qid arabic_indic).
  - reflexivity.
  - discriminate.
Qed.

(** The digits of the pattern are not the ASCII ones only: on a URL
    that ends in [Q] and the Arabic-Indic digits four and two the search
    finds the identifier with these digits, and the pair of another QID
    is scored 0.0. *)
Example unicode_digits_match :
  let q := "Q" +:+ String "217" (String "164" (String "217" (String "162" ""))) in
  let u := "https://www.wikidata.org/wiki/" +:+ q in
  let target := mkDataFrame {["url"]} {["T1" := {["url" := values [u]]}]} in
  chars q = ["Q"; String "217" (String "164" ""); String "217" (String "162" "")]
  ∧ re_search_qid arabic_indic u = Some q
  ∧ _one_when_wikidata_link_correct 0%Qc 1%Qc "url" arabic_indic
      (("Q7", "T1"), Q2Qc (9 # 10)) target = ok 0%Qc.
Proof. by vm_compute. Qed.

Lemma nested_grid_search_rejects_neural_witness :
  nested_k_fold_with_grid_search
    "single_layer_perceptron" "multi_layer_perceptron"
    (λ _, 0%Qc) (λ _, 0%Qc) (λ i : nat, i)
    "multi_layer_perceptron" () "discogs" "musician" 5 "f1" "/app/shared"
  = ([], raise (NotImplementedError
                  "Grid search for multi_layer_perceptron is not supported")).
Proof.
  refine (nested_grid_search_rejects_neural
            "single_layer_perceptron" "multi_layer_perceptron"
            (λ _, 0%Qc) (λ _, 0%Qc) (λ i : nat, i)
            "multi_layer_perceptron" () "discogs" "musician" 5 "f1"
            "/app/shared" _).
  right. reflexivity.
Defined.

(** [drop_duplicates] on the series looks at the scores: of two
    different pairs with the same score the second is dropped, where
    dropping duplicate pairs keeps both. *)
Example drop_duplicates_compares_scores :
  let ge := λ a b : Qc, bool_decide (b ≤ a)%Qc in
  let predictions := [(("Q1", "T1"), Q2Qc (9 # 10));
                      (("Q2", "T2"), Q2Qc (9 # 10));
                      (("Q3", "T3"), Q2Qc (3 # 10))] in
  threshold_dedup ge (Q2Qc (1 # 2)) predictions = [(("Q1", "T1"), Q2Qc (9 # 10))]
  ∧ threshold_dedup_pairs ge (Q2Qc (1 # 2)) predictions
    = [(("Q1", "T1"), Q2Qc (9 # 10)); (("Q2", "T2"), Q2Qc (9 # 10))].
Proof. by vm_compute. Qed.

(** A URL list that is [nan] is not skipped by [if urls:], and the loop
    over it fails. *)
Example missing_urls_type_error :
  let target := mkDataFrame {["url"]} {["T1" := {["url" := nan]}]} in
  _one_when_wikidata_link_correct 0%Qc 1%Qc "url" arabic_indic
    (("Q42", "T1"), Q2Qc (9 # 10)) target
  = raise (TypeError "'float' object is not iterable").
Proof. reflexivity. Qed.

(* ===================================================================== *)
(** * Further properties of the embedded code *)
(* ===================================================================== *)

(** ** What the threshold-and-deduplicate step lets through *)

Section first_by_key_facts.
Context {A K : Type} `{EqDecision K}.
Variable key : A → K.

Lemma first_by_key_sublist (l : list A) : ∀ seen,
  first_by_key key seen l `sublist_of` l.
Proof.
  induction l as [|x l IH]; intros seen; cbn; [done|].
  destruct (decide (key x ∈ seen)).
  - by apply sublist_cons.
  - by apply sublist_skip.
Qed.

Lemma first_by_key_fresh (l : list A) : ∀ seen x,
  x ∈ first_by_key key seen l → key x ∉ seen.
Proof.
  induction l as [|y l IH]; intros seen x; cbn.
  - by intros ?%elem_of_nil.
  - destruct (decide (key y ∈ seen)) as [Hin|Hin]; [by apply IH|].
    rewrite elem_of_cons. intros [->|Hx]; [done|].
    apply IH in Hx. rewrite elem_of_cons in Hx. tauto.
Qed.

Lemma first_by_key_NoDup (l : list A) : ∀ seen,
  NoDup (key <$> first_by_key key seen l).
Proof.
  induction l as [|x l IH]; intros seen; cbn; [constructor|].
  destruct (decide (key x ∈ seen)) as [Hin|Hin]; [by apply IH|].
  cbn. constructor; [|by apply IH].
  intros (y & Hy & Hin')%list_elem_of_fmap.
  apply first_by_key_fresh in Hin'. apply Hin'. rewrite Hy. in_head.
Qed.

Lemma first_by_key_complete (l : list A) : ∀ seen x,
  x ∈ l → key x ∈ seen ∨ ∃ y, y ∈ first_by_key key seen l ∧ key y = key x.
Proof.
  induction l as [|z l IH]; intros seen x; cbn.
  - by intros ?%elem_of_nil.
  - rewrite elem_of_cons. intros [->|Hx].
    + destruct (decide (key z ∈ seen)); [by left|right].
      exists z. split; [in_head|done].
    + destruct (decide (key z ∈ seen)) as [Hin|Hin]; [by apply IH|].
      destruct (IH (key z :: seen) x Hx) as [Hseen|(y & Hy & Heq)].
      * apply elem_of_cons in Hseen as [Heq|Hseen]; [|by left].
        right. exists z. split; [in_head|done].
      * right. exists y. split; [in_tail|done].
Qed.
End first_by_key_facts.

(** X1. The series a chunk yields: every row is a row of the input whose
    score reaches the threshold, the rows keep their order, no two rows
    have the same score, and every score of the input that reaches the
    threshold is the score of a row that is let through. *)
Theorem threshold_dedup_output {score : Type} `{EqDecision score}
    (ge : score → score → bool) (threshold : score)
    (predictions : list ((string * string) * score)) :
  let out := threshold_dedup ge threshold predictions in
  (∀ p, p ∈ out → p ∈ predictions ∧ ge p.2 threshold = true)
  ∧ out `sublist_of` predictions
  ∧ NoDup (out.*2)
  ∧ (∀ p, p ∈ predictions → ge p.2 threshold = true →
          ∃ q, q ∈ out ∧ q.2 = p.2).
Proof.
  cbn zeta. unfold threshold_dedup, drop_duplicates, at_least. split_and!.
  - intros p Hp. apply first_by_key_subseteq, list_elem_of_filter in Hp as [Hge Hp].
    split; [done|]. by apply Is_true_true.
  - etrans; [apply first_by_key_sublist|]. apply sublist_filter.
  - apply first_by_key_NoDup.
  - intros p Hp Hge.
    destruct (first_by_key_complete snd
                (filter (λ p : prediction, ge p.2 threshold) predictions) [] p)
      as [Hnil|Hq]; [|by apply elem_of_nil in Hnil|done].
    apply list_elem_of_filter. split; [by apply Is_true_true|done].
Qed.

(** ** The pattern of the self-reference override *)

Section pattern_search_facts.
Variable unicode_decimal : string → bool.
Implicit Types (s pre ds rest tail : list string) (ch : string).

Lemma span_digits_split s ds rest :
  span_digits unicode_decimal s = (ds, rest) →
  s = ds ++ rest ∧ all_digits unicode_decimal ds.
Proof.
  unfold all_digits. revert ds rest.
  induction s as [|ch s IH]; intros ds rest; cbn [span_digits].
  - intros [= <- <-]. split; [done|constructor].
  - destruct (is_digit unicode_decimal ch) eqn:Hc.
    + destruct (span_digits unicode_decimal s) as [ds' rest'] eqn:Hs.
      intros [= <- <-].
      destruct (IH ds' rest' eq_refl) as [-> Hds].
      split; [done|]. by constructor.
    + intros [= <- <-]. split; [done|constructor].
Qed.

Lemma at_dollar_tail tail :
  at_dollar tail = true ↔ tail = [] ∨ tail = [String "010"%char EmptyString].
Proof. unfold at_dollar. by rewrite bool_decide_eq_true. Qed.

Lemma span_digits_tail ds tail :
  all_digits unicode_decimal ds →
  tail = [] ∨ tail = [String "010"%char EmptyString] →
  span_digits unicode_decimal (ds ++ tail) = (ds, tail).
Proof.
  unfold all_digits. intros Hds Htail.
  induction ds as [|ch ds IH].
  - by destruct Htail as [-> | ->].
  - apply Forall_cons in Hds as [Hc Hds].
    cbn [app span_digits]. rewrite Hc. by rewrite IH.
Qed.

Lemma match_qid_sound s g :
  match_qid unicode_decimal s = Some g →
  ∃ ds tail, s = "Q" :: ds ++ tail ∧ g = "Q" +:+ text ds ∧ ds ≠ []
             ∧ all_digits unicode_decimal ds
             ∧ (tail = [] ∨ tail = [String "010"%char EmptyString]).
Proof.
  unfold match_qid. destruct s as [|ch s]; [done|].
  destruct (decide (ch = "Q")) as [->|]; [|done].
  destruct (span_digits unicode_decimal s) as [ds rest] eqn:Hs.
  destruct (bool_decide (ds ≠ [])) eqn:Hne; [|done].
  destruct (at_dollar rest) eqn:Hrest; [|done]. cbn [andb]. intros [= <-].
  apply span_digits_split in Hs as [-> Hds].
  apply bool_decide_eq_true in Hne. apply at_dollar_tail in Hrest.
  by exists ds, rest.
Qed.

(** The search over a list of characters. *)
Lemma search_qid_spec s q :
  search_qid unicode_decimal s = Some q ↔
  ∃ pre ds tail,
    s = pre ++ "Q" :: ds ++ tail ∧ q = "Q" +:+ text ds ∧ ds ≠ []
    ∧ all_digits unicode_decimal ds
    ∧ (tail = [] ∨ tail = [String "010"%char EmptyString]).
Proof.
  split.
  - induction s as [|ch s IH]; cbn [search_qid].
    + by destruct (match_qid unicode_decimal []) eqn:Hm.
    + destruct (match_qid unicode_decimal (ch :: s)) as [g|] eqn:Hm.
      * intros [= <-].
        apply match_qid_sound in Hm as (ds & tail & Hs & Hq).
        exists [], ds, tail. by rewrite Hs.
      * intros (pre & ds & tail & -> & Hq)%IH.
        by exists (ch :: pre), ds, tail.
  - intros (pre & ds & tail & -> & -> & Hne & Hds & Htail).
    induction pre as [|ch pre IH].
    + cbn [app search_qid match_qid].
      rewrite decide_True by done. rewrite span_digits_tail by done.
      rewrite bool_decide_eq_true_2 by done.
      by rewrite (proj2 (at_dollar_tail tail) Htail).
    + cbn [app search_qid]. by rewrite match_qid_before.
Qed.

(** X2. The search finds an identifier exactly when the characters of
    the string end in [Q] and one decimal digit or more, a final newline
    aside; the group is that identifier. The digits are the Unicode
    decimal digits, whatever those outside ASCII are. *)
Theorem re_search_qid_spec u q :
  re_search_qid unicode_decimal u = Some q ↔ qid_at_end unicode_decimal u q.
Proof. unfold re_search_qid, qid_at_end. apply search_qid_spec. Qed.
End pattern_search_facts.

Lemma re_search_qid_spec_witness :
  let q := "Q" +:+ String "217" (String "164" (String "217" (String "162" ""))) in
  re_search_qid arabic_indic "https://www.wikidata.org/wiki/Q42" = Some "Q42"
  ∧ re_search_qid arabic_indic "https://www.wikidata.org/wiki/Q42/" = None
  ∧ re_search_qid arabic_indic ("https://www.wikidata.org/wiki/" +:+ q) = Some q.
Proof.
  intros q. split_and!.
  - apply re_search_qid_spec.
    exists (chars "https://www.wikidata.org/wiki/"), ["4"; "2"], [].
    split_and!; [reflexivity | reflexivity | discriminate | | by left].
    unfold all_digits. repeat constructor.
  - reflexivity.
  - apply re_search_qid_spec.
    exists (chars "https://www.wikidata.org/wiki/"),
      [String "217" (String "164" ""); String "217" (String "162" "")], [].
    split_and!; [reflexivity | reflexivity | discriminate | | by left].
    unfold all_digits. repeat constructor.
Defined.

(** ** What the self-reference override can return *)

Section override_range_facts.
Context {score : Type} `{EqDecision score}.
Variable zero one : score.
Variable URL : string.
Variable unicode_decimal : string → bool.

Lemma first_wikidata_link_range qid (raw : score) urls :
  let s := first_wikidata_link zero one unicode_decimal qid raw urls in
  (s = raw ∨ s = zero ∨ s = one)
  ∧ ((∀ u, u ∈ urls → str_in "wikidata" u = false
                      ∨ re_search_qid unicode_decimal u = None) →
     s = raw).
Proof.
  cbn zeta. induction urls as [|u urls [IHr IHn]]; cbn [first_wikidata_link].
  - by split; [left|].
  - destruct (bool_decide (u ≠ EmptyString) && str_in "wikidata" u) eqn:Hu.
    + destruct (re_search_qid unicode_decimal u) as [g|] eqn:Hg.
      * split.
        -- destruct (decide (qid = g)); auto.
        -- intros Hno. destruct (Hno u) as [Hin|Hnone]; [in_head| |congruence].
           apply andb_true_iff in Hu as [_ Hu]. congruence.
      * split; [done|]. intros Hno. apply IHn. intros v Hv. apply Hno. in_tail.
    + split; [done|]. intros Hno. apply IHn. intros v Hv. apply Hno. in_tail.
Qed.

(** X3. On a record with a URL list the override never fails and
    returns the raw score, 0.0 or 1.0; it returns the raw score when no
    URL of the record both holds 'wikidata' and matches the pattern, for
    one when the list is empty. *)
Theorem wikidata_link_override_range target qid tid (raw : score) urls :
  df_loc target tid URL = ok (values urls) →
  ∃ s,
    _one_when_wikidata_link_correct zero one URL unicode_decimal
      ((qid, tid), raw) target = ok s
    ∧ (s = raw ∨ s = zero ∨ s = one)
    ∧ ((∀ u, u ∈ urls → str_in "wikidata" u = false
                        ∨ re_search_qid unicode_decimal u = None) →
       s = raw).
Proof.
  intros Hloc. unfold _one_when_wikidata_link_correct. rewrite Hloc.
  cbn [bind ok]. eexists. split; [reflexivity|].
  apply first_wikidata_link_range.
Qed.
End override_range_facts.

Lemma wikidata_link_override_range_witness :
  let target :=
    mkDataFrame {["url"]} {["T1" := {["url" := values ["https://discogs.com/artist/1"]]}]} in
  ∃ s, _one_when_wikidata_link_correct 0%Qc 1%Qc "url" arabic_indic
         (("Q42", "T1"), Q2Qc (3 # 10)) target = ok s
       ∧ s = Q2Qc (3 # 10).
Proof.
  intros target.
  destruct (wikidata_link_override_range 0%Qc 1%Qc "url" arabic_indic target
              "Q42" "T1" (Q2Qc (3 # 10)) ["https://discogs.com/artist/1"] eq_refl)
    as (s & Hs & _ & Hraw).
  exists s. split; [exact Hs|]. apply Hraw.
  intros u Hu. apply list_elem_of_singleton in Hu. subst u. left. reflexivity.
Defined.

(** ** The veto as an operation on the series *)

Section veto_algebra.
Context {score : Type} `{EqDecision score}.
Variable zero : score.
Implicit Types (wikidata target : DataFrame) (fields : list string).

Lemma override_values_elem frame label fields v :
  v ∈ override_values frame label fields ↔
  ∃ column, column ∈ fields ∧ v ∈ cell_values frame label column.
Proof.
  unfold override_values. rewrite elem_of_union_list. split.
  - intros (X & (column & -> & Hc)%list_elem_of_fmap & Hv). eauto.
  - intros (column & Hc & Hv). exists (cell_values frame label column).
    split; [|done]. apply list_elem_of_fmap. eauto.
Qed.

Lemma override_values_same_fields frame label fields fields' :
  (∀ column, column ∈ fields ↔ column ∈ fields') →
  override_values frame label fields = override_values frame label fields'.
Proof.
  intros Hsame. apply set_eq. intros v. rewrite !override_values_elem.
  by setoid_rewrite Hsame.
Qed.

Lemma existsb_same {A} (f : A → bool) (l l' : list A) :
  (∀ x, x ∈ l ↔ x ∈ l') → existsb f l = existsb f l'.
Proof.
  intros Hsame. apply eq_true_iff_eq. rewrite !existsb_exists.
  split; intros (x & Hx & Hf); exists x; (split; [|done]);
    apply list_elem_of_In, Hsame; by apply list_elem_of_In.
Qed.

(** X4. The veto looks at the override fields as a set: listing them in
    another order, or one of them twice, gives the same corrected
    score. *)
Theorem veto_field_order qid tid (raw : score) fields fields' wikidata target :
  (∀ column, column ∈ fields ↔ column ∈ fields') →
  readable wikidata qid fields →
  readable target tid fields →
  _zero_when_not_exact_match zero ((qid, tid), raw) (FieldList fields)
    wikidata target
  = _zero_when_not_exact_match zero ((qid, tid), raw) (FieldList fields')
      wikidata target.
Proof.
  intros Hsame Hwd Htg.
  rewrite !zero_when_not_exact_match_run; cbn [fields_list]; try done.
  - rewrite (existsb_same _ fields fields') by done.
    by rewrite (override_values_same_fields wikidata qid fields fields'),
      (override_values_same_fields target tid fields fields').
  - intros column Hc. apply Hwd. by apply Hsame.
  - intros column Hc. apply Htg. by apply Hsame.
Qed.

End veto_algebra.

Lemma veto_field_order_witness :
  let wikidata :=
    mkDataFrame {["name"; "url"]}
      {["Q1" := {["name" := values ["john"; "smith"]; "url" := nan]}]} in
  let target :=
    mkDataFrame {["name"]} {["T1" := {["name" := values ["smith"]]}]} in
  let p := (("Q1", "T1"), Q2Qc (9 # 10)) in
  _zero_when_not_exact_match 0%Qc p (FieldList ["name"; "url"]) wikidata target
  = _zero_when_not_exact_match 0%Qc p (FieldList ["url"; "name"; "url"])
      wikidata target.
Proof.
  intros wikidata target p.
  refine (veto_field_order 0%Qc "Q1" "T1" (Q2Qc (9 # 10)) ["name"; "url"]
            ["url"; "name"; "url"] wikidata target _ _ _).
  - intros column. rewrite !elem_of_cons, !elem_of_nil. tauto.
  - intros column _ _. eexists. reflexivity.
  - intros column _ _. eexists. reflexivity.
Defined.


(** ** What width reconciliation keeps *)

Section padding_invariants.
Context {V : Type}.
Variable FEATURE_MISSING_VALUE : V.
Variable CLASSIFIERS : list string.
Implicit Types (fv : feature_vectors V) (name : string) (column : list V).

Lemma setitem_labels fv name column :
  (fv_columns (setitem fv name column)).*1 =
  if decide (name ∈ (fv_columns fv).*1)
  then (fv_columns fv).*1
  else (fv_columns fv).*1 ++ [name].
Proof.
  unfold setitem. cbn. destruct (decide (name ∈ (fv_columns fv).*1)).
  - rewrite <-list_fmap_compose. apply list_fmap_ext.
    intros i [n c] _. cbn. by destruct (decide (n = name)) as [->|].
  - by rewrite fmap_app.
Qed.

Lemma setitem_other fv name column i name' column' :
  fv_columns fv !! i = Some (name', column') →
  name' ≠ name →
  fv_columns (setitem fv name column) !! i = Some (name', column').
Proof.
  intros Hi Hne. unfold setitem. cbn.
  destruct (decide (name ∈ (fv_columns fv).*1)).
  - rewrite list_lookup_fmap, Hi. cbn. by rewrite decide_False.
  - by apply lookup_app_l_Some.
Qed.

Lemma setitem_column fv name column c :
  c ∈ fv_columns (setitem fv name column) →
  (c.1 = name ∧ c.2 = column) ∨ (c.1 ≠ name ∧ c ∈ fv_columns fv).
Proof.
  unfold setitem. cbn. destruct (decide (name ∈ (fv_columns fv).*1)).
  - intros (c' & -> & Hc')%list_elem_of_fmap.
    destruct (decide (c'.1 = name)); [by left|by right].
  - rewrite elem_of_app, list_elem_of_singleton. intros [Hc| ->]; [|by left].
    right. split; [|done]. intros <-. by apply n, list_elem_of_fmap_2.
Qed.

Lemma setitem_present fv name column :
  name ∈ (fv_columns (setitem fv name column)).*1.
Proof.
  rewrite setitem_labels. destruct (decide _); [done|].
  apply elem_of_app. right. in_head.
Qed.

(** Assigning a column its own content changes nothing. *)
Lemma setitem_same fv name column :
  name ∈ (fv_columns fv).*1 →
  (∀ c, c ∈ fv_columns fv → c.1 = name → c.2 = column) →
  setitem fv name column = fv.
Proof.
  intros Hin Hsame. unfold setitem. rewrite decide_True by done.
  destruct fv as [index columns]. cbn in *. f_equal.
  rewrite <-(list_fmap_id columns) at 2. apply list_fmap_ext.
  intros i [n c] Hi. cbn. destruct (decide (n = name)) as [->|]; [|done].
  f_equal. symmetry. apply (Hsame (name, c)); [|done].
  by eapply list_elem_of_lookup_2.
Qed.

Lemma pad_loop_keeps (l : list nat) : ∀ fv,
  fv_index (pad_loop FEATURE_MISSING_VALUE fv l) = fv_index fv
  ∧ (fv_columns fv).*1 `prefix_of` (fv_columns (pad_loop FEATURE_MISSING_VALUE fv l)).*1
  ∧ shape1 (pad_loop FEATURE_MISSING_VALUE fv l) ≤ shape1 fv + length l
  ∧ (∀ i name column,
       fv_columns fv !! i = Some (name, column) →
       (∀ j : nat, name ≠ "missing_" +:+ pretty j) →
       fv_columns (pad_loop FEATURE_MISSING_VALUE fv l) !! i = Some (name, column)).
Proof.
  unfold pad_loop.
  induction l as [|k l IH]; intros fv; cbn [foldl].
  - split_and!; [done|done|cbn; lia|done].
  - destruct (IH (setitem fv ("missing_" +:+ pretty k)
                    (full (len fv) FEATURE_MISSING_VALUE)))
      as (Hidx & Hpre & Hlen & Hcols).
    split_and!.
    + by rewrite Hidx.
    + etrans; [|exact Hpre]. rewrite setitem_labels.
      destruct (decide _); [done|]. by apply prefix_app_r.
    + etrans; [exact Hlen|]. unfold shape1.
      rewrite <-!(length_fmap fst), setitem_labels.
      destruct (decide _); [cbn; lia|]. rewrite length_app. cbn. lia.
    + intros i name column Hi Hname. apply Hcols; [|done].
      by apply setitem_other.
Qed.

(** After the loop every label it assigned is there, and each column
    under such a label holds the sentinel. *)
Lemma pad_loop_filled (l : list nat) : ∀ fv k,
  k ∈ l →
  "missing_" +:+ pretty k ∈ (fv_columns (pad_loop FEATURE_MISSING_VALUE fv l)).*1
  ∧ ∀ c, c ∈ fv_columns (pad_loop FEATURE_MISSING_VALUE fv l) →
         c.1 = "missing_" +:+ pretty k →
         c.2 = full (len fv) FEATURE_MISSING_VALUE.
Proof.
  induction l as [|k' l IH] using rev_ind; intros fv k Hk.
  - by apply elem_of_nil in Hk.
  - unfold pad_loop. rewrite foldl_app. cbn [foldl]. fold (pad_loop FEATURE_MISSING_VALUE fv l).
    assert (len (pad_loop FEATURE_MISSING_VALUE fv l) = len fv) as Hlen.
    { unfold len. by rewrite (proj1 (pad_loop_keeps l fv)). }
    rewrite Hlen. apply elem_of_app in Hk as [Hk|Hk].
    + destruct (IH fv k Hk) as [Hin Hcol]. split.
      * rewrite setitem_labels. destruct (decide _); [done|].
        apply elem_of_app. by left.
      * intros c Hc Hname. apply setitem_column in Hc as [[_ ?]|[_ Hc]]; [done|].
        by apply Hcol.
    + apply list_elem_of_singleton in Hk as ->. split.
      * apply setitem_present.
      * intros c Hc Hname. apply setitem_column in Hc as [[_ ?]|[Hne _]]; done.
Qed.

Lemma pad_loop_again fv fv' (l : list nat) :
  len fv' = len fv →
  (∀ k, k ∈ l →
     "missing_" +:+ pretty k ∈ (fv_columns fv').*1
     ∧ ∀ c, c ∈ fv_columns fv' → c.1 = "missing_" +:+ pretty k →
            c.2 = full (len fv) FEATURE_MISSING_VALUE) →
  pad_loop FEATURE_MISSING_VALUE fv' l = fv'.
Proof.
  intros Hlen. unfold pad_loop.
  induction l as [|k l IH]; intros Hfilled; cbn [foldl]; [done|].
  rewrite setitem_same.
  - apply IH. intros j Hj. apply Hfilled. in_tail.
  - apply Hfilled. in_head.
  - rewrite Hlen. apply Hfilled. in_head.
Qed.

Lemma add_missing_unfold c fv e :
  expected_features_of CLASSIFIERS c = ok e →
  _add_missing_feature_columns FEATURE_MISSING_VALUE CLASSIFIERS c fv =
  ok (if decide (e ≠ shape1 fv)
      then pad_loop FEATURE_MISSING_VALUE fv (seq 0 (e - shape1 fv))
      else fv).
Proof.
  intros He. unfold _add_missing_feature_columns. rewrite He. cbn [bind ok].
  destruct (decide (e ≠ shape1 fv)); [|done].
  unfold range, pad_loop.
  by replace (Z.to_nat (Z.of_nat e - Z.of_nat (shape1 fv)))
    with (e - shape1 fv) by lia.
Qed.

(** X6. For a supported model, whatever the widths and the labels, width
    reconciliation returns a matrix with the same rows, with the old
    labels first and in their order, with no fewer columns than before
    and no more than the larger of the two widths, and with every column
    that is not labelled [missing_<i>] left as it was. *)
Theorem add_missing_feature_columns_keeps c fv e :
  expected_features_of CLASSIFIERS c = ok e →
  ∃ fv',
    _add_missing_feature_columns FEATURE_MISSING_VALUE CLASSIFIERS c fv = ok fv'
    ∧ fv_index fv' = fv_index fv
    ∧ (fv_columns fv).*1 `prefix_of` (fv_columns fv').*1
    ∧ shape1 fv ≤ shape1 fv' ≤ shape1 fv `max` e
    ∧ (∀ i name column,
         fv_columns fv !! i = Some (name, column) →
         (∀ j : nat, name ≠ "missing_" +:+ pretty j) →
         fv_columns fv' !! i = Some (name, column)).
Proof.
  intros He. rewrite (add_missing_unfold _ _ _ He).
  eexists. split; [reflexivity|].
  destruct (decide (e ≠ shape1 fv)) as [Hne|Heq].
  - destruct (pad_loop_keeps (seq 0 (e - shape1 fv)) fv)
      as (Hidx & Hpre & Hlen & Hcols).
    split_and!; [done|done| | |done].
    + apply prefix_length in Hpre. rewrite !length_fmap in Hpre.
      exact Hpre.
    + rewrite length_seq in Hlen. lia.
  - split_and!; [done|done|lia|lia|done].
Qed.

(** X7. Width reconciliation is idempotent for a supported model: run
    on its own result it returns that result, also when the matrix was
    wider than expected or already held padding labels. *)
Theorem add_missing_feature_columns_idempotent c fv e :
  expected_features_of CLASSIFIERS c = ok e →
  ∃ fv',
    _add_missing_feature_columns FEATURE_MISSING_VALUE CLASSIFIERS c fv = ok fv'
    ∧ _add_missing_feature_columns FEATURE_MISSING_VALUE CLASSIFIERS c fv' = ok fv'.
Proof.
  intros He. rewrite (add_missing_unfold _ _ _ He).
  eexists. split; [reflexivity|]. rewrite (add_missing_unfold _ _ _ He).
  f_equal. destruct (decide (e ≠ shape1 fv)) as [Hne|Heq].
  - set (fv' := pad_loop FEATURE_MISSING_VALUE fv (seq 0 (e - shape1 fv))).
    destruct (decide (e ≠ shape1 fv')) as [Hne'|]; [|done].
    destruct (pad_loop_keeps (seq 0 (e - shape1 fv)) fv) as (Hidx & Hpre & _).
    fold fv' in Hidx, Hpre.
    apply (pad_loop_again fv).
    + unfold len. by rewrite Hidx.
    + intros k Hk. apply pad_loop_filled.
      apply elem_of_seq. apply elem_of_seq in Hk.
      apply prefix_length in Hpre. rewrite !length_fmap in Hpre.
      unfold shape1 in *. lia.
  - by rewrite decide_False.
Qed.
End padding_invariants.

Lemma add_missing_feature_columns_keeps_witness :
  let fv := FeatureVectors [("Q1", "T1")] [("name", [70%Z]); ("missing_0", [55%Z])] in
  ∃ fv',
    _add_missing_feature_columns (-1)%Z ["nb"] (NaiveBayesClassifier 4) fv = ok fv'
    ∧ fv_index fv' = fv_index fv
    ∧ shape1 fv ≤ shape1 fv' ≤ 4.
Proof.
  intros fv.
  destruct (add_missing_feature_columns_keeps (-1)%Z ["nb"]
              (NaiveBayesClassifier 4) fv 4 eq_refl)
    as (fv' & Heq & Hidx & _ & Hw & _).
  exists fv'. subst fv. unfold shape1 in *. cbn in Hw.
  split_and!; [exact Heq | exact Hidx | cbn; lia | lia].
Defined.

Lemma add_missing_feature_columns_idempotent_witness :
  let fv := FeatureVectors [("Q1", "T1")] [("name", [70%Z]); ("missing_0", [55%Z])] in
  ∃ fv',
    _add_missing_feature_columns (-1)%Z ["nb"] (NaiveBayesClassifier 4) fv = ok fv'
    ∧ _add_missing_feature_columns (-1)%Z ["nb"] (NaiveBayesClassifier 4) fv' = ok fv'.
Proof.
  intros fv.
  exact (add_missing_feature_columns_idempotent (-1)%Z ["nb"]
           (NaiveBayesClassifier 4) fv 4 eq_refl).
Defined.

(** ** Gathering the target links *)

Section target_links_facts.
Implicit Types (rows : list (string * string)).
Implicit Types (acc : gmap string (list string)).

Lemma append_link_lookup acc row tid :
  default [] (append_link acc row !! tid) =
  default [] (acc !! tid) ++ (if decide (row.1 = tid) then [row.2] else []).
Proof.
  unfold append_link. destruct (decide (row.1 = tid)) as [->|Hne].
  - by rewrite lookup_insert_eq.
  - rewrite lookup_insert_ne by done. by rewrite app_nil_r.
Qed.

Lemma group_links_lookup rows : ∀ acc tid,
  default [] (foldl append_link acc rows !! tid) =
  default [] (acc !! tid) ++ (filter (λ r, r.1 = tid) rows).*2.
Proof.
  induction rows as [|row rows IH]; intros acc tid; cbn [foldl].
  - by rewrite app_nil_r.
  - rewrite IH, append_link_lookup, <-app_assoc. f_equal.
    destruct (decide (row.1 = tid)).
    + by rewrite filter_cons_True.
    + by rewrite filter_cons_False.
Qed.

Lemma group_links_key rows : ∀ acc tid,
  is_Some (foldl append_link acc rows !! tid) ↔
  is_Some (acc !! tid) ∨ ∃ url, (tid, url) ∈ rows.
Proof.
  induction rows as [|[t u] rows IH]; intros acc tid; cbn [foldl].
  - split; [auto|]. intros [?|[url Hin]]; [done|]. by apply elem_of_nil in Hin.
  - rewrite IH. unfold append_link. cbn. setoid_rewrite elem_of_cons.
    destruct (decide (t = tid)) as [->|Hne].
    + rewrite lookup_insert_eq. split; [|by eauto].
      intros _. right. exists u. by left.
    + rewrite lookup_insert_ne by done. split.
      * intros [?|[url ?]]; [by left|]. right. exists url. by right.
      * intros [?|[url [?|?]]]; [by left|simplify_eq|]. right. by exists url.
Qed.

Lemma group_links_exact rows tid :
  foldl append_link ∅ rows !! tid =
    match (filter (λ r, r.1 = tid) rows).*2 with
    | [] => None
    | urls => Some urls
    end.
Proof.
  pose proof (group_links_lookup rows ∅ tid) as Hl.
  pose proof (group_links_key rows ∅ tid) as Hk.
  rewrite lookup_empty in Hl, Hk. cbn in Hl.
  destruct (foldl append_link ∅ rows !! tid) as [l|] eqn:Hfold.
  - cbn in Hl. subst l. destruct Hk as [[[]%is_Some_None|[url Hin]] _]; [by eexists|].
    assert (url ∈ (filter (λ r, r.1 = tid) rows).*2) as Hurl.
    { apply list_elem_of_fmap. exists (tid, url). split; [done|].
      by apply list_elem_of_filter. }
    destruct ((filter (λ r, r.1 = tid) rows).*2); [|done].
    by apply elem_of_nil in Hurl.
  - cbn in Hl. by rewrite <-Hl.
Qed.

Lemma group_links_urls rows tid url :
  url ∈ (filter (λ r, r.1 = tid) rows).*2 ↔ (tid, url) ∈ rows.
Proof.
  rewrite list_elem_of_fmap. split.
  - intros ([t u] & -> & [Ht Hin]%list_elem_of_filter). cbn in *. by subst.
  - intros Hin. exists (tid, url). split; [done|]. by apply list_elem_of_filter.
Qed.

(** X8. The dictionary of target links holds, under every catalog
    identifier that has a row, the URLs of its rows in the order of the
    rows; it has no other key, and none of its lists is empty. *)
Theorem group_target_links_lookup rows tid :
  foldl append_link ∅ rows !! tid =
    match (filter (λ r, r.1 = tid) rows).*2 with
    | [] => None
    | urls => Some urls
    end.
Proof. apply group_links_exact. Qed.
End target_links_facts.

Section catalog_table_facts.
Variable MUSICIAN BAND ACTOR FILM_DIRECTOR FILM_PRODUCER : string.
Variable link_rows : string → list (string * string).

(** X9. Gathering the target links succeeds for Discogs and MusicBrainz
    with musicians or bands and for nothing else: for the entities of
    IMDb, whose link entity is [None], it fails with an
    [AttributeError], and for every other catalog or entity with a
    [ValueError]. *)
Theorem gather_target_links_supported (entity catalog : string) :
  match lookup_catalog_entity MUSICIAN BAND ACTOR FILM_DIRECTOR FILM_PRODUCER
          catalog entity with
  | Some catalog_entity =>
      match ce_link_entity catalog_entity with
      | Some link_entity =>
          (catalog = "discogs" ∨ catalog = "musicbrainz")
          ∧ (entity = "musician" ∨ entity = "band")
          ∧ _gather_target_links MUSICIAN BAND ACTOR FILM_DIRECTOR FILM_PRODUCER
              link_rows entity catalog
            = ok (foldl append_link ∅ (link_rows link_entity))
      | None =>
          catalog = "imdb"
          ∧ (entity = "actor" ∨ entity = "director" ∨ entity = "producer")
          ∧ _gather_target_links MUSICIAN BAND ACTOR FILM_DIRECTOR FILM_PRODUCER
              link_rows entity catalog
            = raise (AttributeError
                       "'NoneType' object has no attribute 'catalog_id'")
      end
  | None =>
      ¬ ((catalog = "discogs" ∨ catalog = "musicbrainz")
         ∧ (entity = "musician" ∨ entity = "band"))
      ∧ ∃ msg,
          _gather_target_links MUSICIAN BAND ACTOR FILM_DIRECTOR FILM_PRODUCER
            link_rows entity catalog
          = raise (ValueError msg)
  end.
Proof.
  unfold lookup_catalog_entity, _gather_target_links, _get_catalog_constants,
    _get_catalog_entity, TARGET_CATALOGS.
  cbn [dict_get].
  repeat (match goal with
          | |- context [decide (?x = ?k)] =>
              is_var x; destruct (decide (x = k)) as [->|?]
          end;
          cbn [dict_get bind ok raise ce_link_entity]);
    repeat split; eauto; try (intros [[?|?] [?|?]]; simplify_eq).
Qed.
End catalog_table_facts.

(** ** Gathering identifiers and links from Wikidata *)

Section loops.
Context {A S : Type}.

Lemma foldl_foldl_concat (f : S → A → S) (ls : list (list A)) : ∀ s,
  foldl (foldl f) s ls = foldl f s (concat ls).
Proof.
  induction ls as [|l ls IH]; intros s; cbn [foldl concat]; [done|].
  by rewrite IH, foldl_app.
Qed.

Lemma for_each_app (f : S → A → result S) (l1 l2 : list A) : ∀ s,
  for_each f s (l1 ++ l2) = let* s' := for_each f s l1 in for_each f s' l2.
Proof.
  induction l1 as [|x l1 IH]; intros s; cbn [for_each app bind ok]; [done|].
  destruct (f s x) as [e|s']; cbn [bind]; [done|]. apply IH.
Qed.

Lemma for_each_for_each_concat (f : S → A → result S) (ls : list (list A)) : ∀ s,
  for_each (for_each f) s ls = for_each f s (concat ls).
Proof.
  induction ls as [|l ls IH]; intros s; cbn [for_each concat]; [done|].
  rewrite for_each_app. destruct (for_each f s l) as [e|s']; cbn [bind]; [done|].
  apply IH.
Qed.
End loops.

Section wikidata_gathering_facts.
Implicit Types (m aggregated wikidata : gmap string wikidata_item).
Implicit Types (r : string * string) (rs : list (string * string)).

Lemma add_identifier_spec m r qid :
  identifiers_of (add_identifier m r) qid =
    identifiers_of m qid ∪ (if decide (r.1 = qid) then {[r.2]} else ∅)
  ∧ links_entry (add_identifier m r) qid = links_entry m qid
  ∧ (is_Some (add_identifier m r !! qid) ↔ is_Some (m !! qid) ∨ r.1 = qid).
Proof.
  unfold identifiers_of, links_entry, add_identifier.
  destruct (decide (r.1 = qid)) as [<-|Hne].
  - rewrite lookup_insert_eq. cbn. split_and!.
    + by destruct (m !! r.1).
    + by destruct (m !! r.1).
    + split; [auto|by eauto].
  - rewrite lookup_insert_ne by done. split_and!.
    + by rewrite (right_id_L ∅ (∪)).
    + done.
    + split; [auto|]. by intros [?|?].
Qed.

Lemma add_identifiers_spec rs : ∀ m qid,
  (∀ tid, tid ∈ identifiers_of (foldl add_identifier m rs) qid ↔
          tid ∈ identifiers_of m qid ∨ (qid, tid) ∈ rs)
  ∧ links_entry (foldl add_identifier m rs) qid = links_entry m qid
  ∧ (is_Some (foldl add_identifier m rs !! qid) ↔
     is_Some (m !! qid) ∨ ∃ tid, (qid, tid) ∈ rs).
Proof.
  induction rs as [|[q t] rs IH]; intros m qid; cbn [foldl].
  - split_and!; [|done|].
    + intros tid. rewrite elem_of_nil. tauto.
    + setoid_rewrite elem_of_nil. naive_solver.
  - destruct (IH (add_identifier m (q, t)) qid) as (Hids & Hlinks & Hkey).
    destruct (add_identifier_spec m (q, t) qid) as (Hid1 & Hl1 & Hk1).
    cbn [fst snd] in Hid1, Hk1. split_and!.
    + intros tid. rewrite Hids, Hid1, elem_of_cons, elem_of_union.
      destruct (decide (q = qid)) as [->|Hne].
      * rewrite elem_of_singleton. naive_solver.
      * rewrite elem_of_empty. naive_solver.
    + by rewrite Hlinks.
    + rewrite Hkey, Hk1. setoid_rewrite elem_of_cons. naive_solver.
Qed.

Lemma add_wikidata_links_ok rs : ∀ m,
  (∀ r, r ∈ rs → is_Some (m !! r.1)) →
  ∃ m',
    for_each add_wikidata_link m rs = ok m'
    ∧ (∀ qid, identifiers_of m' qid = identifiers_of m qid)
    ∧ (∀ qid url, url ∈ links_of m' qid ↔ url ∈ links_of m qid ∨ (qid, url) ∈ rs)
    ∧ (∀ qid, is_Some (m' !! qid) ↔ is_Some (m !! qid)).
Proof.
  induction rs as [|[q u] rs IH]; intros m Hdom; cbn [for_each].
  - exists m. split_and!; [done|done| |done].
    intros qid url. rewrite elem_of_nil. tauto.
  - destruct (Hdom (q, u)) as [item Hitem]; [in_head|]. cbn in Hitem.
    unfold add_wikidata_link at 1. cbn [fst snd]. rewrite Hitem. cbn [bind ok].
    set (m1 := <[q := WikidataItem (identifiers item)
                        (Some (default ∅ (links item) ∪ {[u]}))]> m).
    destruct (IH m1) as (m' & Heq & Hids & Hlinks & Hkey).
    { intros r Hr. unfold m1. rewrite lookup_insert_is_Some'.
      right. apply Hdom. in_tail. }
    exists m'. split_and!; [done| | |].
    + intros qid. rewrite Hids. unfold identifiers_of, m1.
      destruct (decide (q = qid)) as [->|Hne].
      * by rewrite lookup_insert_eq, Hitem.
      * by rewrite lookup_insert_ne.
    + intros qid url. rewrite Hlinks, elem_of_cons.
      unfold links_of, links_entry, m1.
      destruct (decide (q = qid)) as [->|Hne].
      * rewrite lookup_insert_eq, Hitem. cbn.
        rewrite elem_of_union, elem_of_singleton. naive_solver.
      * rewrite lookup_insert_ne by done. naive_solver.
    + intros qid. rewrite Hkey. unfold m1. rewrite lookup_insert_is_Some'.
      split; [|by auto]. intros [->|?]; [by eexists|done].
Qed.

Lemma add_wikidata_links_missing pre r post : ∀ m,
  (∀ r', r' ∈ pre → is_Some (m !! r'.1)) →
  m !! r.1 = None →
  for_each add_wikidata_link m (pre ++ r :: post) = raise (KeyError r.1).
Proof.
  intros m Hpre Hr. rewrite for_each_app.
  destruct (add_wikidata_links_ok pre m Hpre) as (m' & -> & _ & _ & Hkey).
  cbn [bind ok for_each]. unfold add_wikidata_link.
  destruct (m' !! r.1) eqn:Hm'; [|by cbn [bind raise]].
  destruct (proj1 (Hkey r.1)) as [? ?]; [by eexists|congruence].
Qed.
End wikidata_gathering_facts.

Section gathering_facts.
Variable MUSICIAN BAND ACTOR FILM_DIRECTOR FILM_PRODUCER : string.
Variable run_identifier_or_links_query :
  string * option string → string → string → nat → list (list (string * string)).
Context {U E : Type}.
Variable get_links : list string → U → E → list (list (string * string)).
Variable get_external_id_from_url : string → E → option string * option string.
Variable DESCRIBED_AT_URL : string.

(** X10. For a catalog of the table and an entity type of that
    catalog, gathering identifiers succeeds; afterwards a QID has the
    identifiers it had and those the query pairs it with, its links
    entry is untouched, and the QIDs of the dictionary are the old ones
    and those of the query. *)
Theorem gather_identifiers_spec entity catalog catalog_pid
    (aggregated : gmap string wikidata_item) catalog_constants catalog_entity :
  _get_catalog_constants MUSICIAN BAND ACTOR FILM_DIRECTOR FILM_PRODUCER catalog
    = ok catalog_constants →
  dict_get entity catalog_constants = Some catalog_entity →
  let results :=
    concat (run_identifier_or_links_query
              ("identifier", dict_get entity HANDLED_ENTITIES)
              (ce_qid catalog_entity) catalog_pid 0) in
  ∃ aggregated',
    _gather_identifiers MUSICIAN BAND ACTOR FILM_DIRECTOR FILM_PRODUCER
      run_identifier_or_links_query entity catalog catalog_pid aggregated
    = ok aggregated'
    ∧ (∀ qid tid, tid ∈ identifiers_of aggregated' qid ↔
                  tid ∈ identifiers_of aggregated qid ∨ (qid, tid) ∈ results)
    ∧ (∀ qid, links_entry aggregated' qid = links_entry aggregated qid)
    ∧ (∀ qid, is_Some (aggregated' !! qid) ↔
              is_Some (aggregated !! qid) ∨ ∃ tid, (qid, tid) ∈ results).
Proof.
  intros Hcc Hce results. unfold _gather_identifiers.
  rewrite Hcc. cbn [bind ok]. rewrite Hce. cbn [bind ok].
  eexists. split; [reflexivity|]. rewrite foldl_foldl_concat. fold results.
  split_and!; intros qid; by destruct (add_identifiers_spec results aggregated qid)
    as (? & ? & ?).
Qed.

(** X11. Gathering the Wikidata links succeeds when every QID the
    links come with is a key of the dictionary: the keys and the
    identifiers stay, and a QID has the links it had and those that come
    with it. At the first link that comes with an unknown QID it fails
    with a [KeyError] for that QID. *)
Theorem gather_wikidata_links_spec (wikidata : gmap string wikidata_item)
    (url_pids : U) (ext_id_pids_to_urls : E) :
  let links :=
    concat (get_links (map_to_list wikidata).*1 url_pids ext_id_pids_to_urls) in
  ((∀ r, r ∈ links → is_Some (wikidata !! r.1)) →
   ∃ wikidata',
     _gather_wikidata_links get_links wikidata url_pids ext_id_pids_to_urls
       = ok wikidata'
     ∧ (∀ qid, is_Some (wikidata' !! qid) ↔ is_Some (wikidata !! qid))
     ∧ (∀ qid, identifiers_of wikidata' qid = identifiers_of wikidata qid)
     ∧ (∀ qid url, url ∈ links_of wikidata' qid ↔
                   url ∈ links_of wikidata qid ∨ (qid, url) ∈ links))
  ∧ (∀ pre r post,
       links = pre ++ r :: post →
       (∀ r', r' ∈ pre → is_Some (wikidata !! r'.1)) →
       wikidata !! r.1 = None →
       _gather_wikidata_links get_links wikidata url_pids ext_id_pids_to_urls
         = raise (KeyError r.1)).
Proof.
  intros links. unfold _gather_wikidata_links.
  rewrite for_each_for_each_concat. fold links. split.
  - intros Hdom.
    destruct (add_wikidata_links_ok links wikidata Hdom)
      as (w' & Heq & Hids & Hlinks & Hkey).
    by exists w'.
  - intros pre r post -> Hpre Hr. by apply add_wikidata_links_missing.
Qed.

Lemma extract_url_step (ext : E) qid acc url :
  extract_url get_external_id_from_url DESCRIBED_AT_URL ext qid acc url =
  (acc.1 ++ (if str_truthy (get_external_id_from_url url ext).1
             then [(qid, (get_external_id_from_url url ext).2,
                    default EmptyString (get_external_id_from_url url ext).1)]
             else []),
   acc.2 ++ (if str_truthy (get_external_id_from_url url ext).1
             then []
             else [(qid, DESCRIBED_AT_URL, url)])).
Proof.
  unfold extract_url. destruct (get_external_id_from_url url ext) as [ext_id pid].
  cbn [fst snd]. destruct (str_truthy ext_id); by rewrite app_nil_r.
Qed.

Lemma extract_urls_fold (ext : E) qid urls : ∀ acc,
  foldl (extract_url get_external_id_from_url DESCRIBED_AT_URL ext qid) acc urls =
  (acc.1 ++ (urls ≫= λ url,
               if str_truthy (get_external_id_from_url url ext).1
               then [(qid, (get_external_id_from_url url ext).2,
                      default EmptyString (get_external_id_from_url url ext).1)]
               else []),
   acc.2 ++ (urls ≫= λ url,
               if str_truthy (get_external_id_from_url url ext).1
               then []
               else [(qid, DESCRIBED_AT_URL, url)])).
Proof.
  induction urls as [|url urls IH]; intros acc; cbn [foldl].
  - destruct acc. cbn. by rewrite !app_nil_r.
  - rewrite IH, extract_url_step. cbn [fst snd mbind list_bind].
    by rewrite <-!app_assoc.
Qed.

Lemma extract_items_fold (ext : E) (items : list (string * gset string)) : ∀ acc,
  foldl (λ acc item,
           foldl (extract_url get_external_id_from_url DESCRIBED_AT_URL ext item.1)
             acc (elements item.2)) acc items =
  (acc.1 ++ (items ≫= λ item, elements item.2 ≫= λ url,
               if str_truthy (get_external_id_from_url url ext).1
               then [(item.1, (get_external_id_from_url url ext).2,
                      default EmptyString (get_external_id_from_url url ext).1)]
               else []),
   acc.2 ++ (items ≫= λ item, elements item.2 ≫= λ url,
               if str_truthy (get_external_id_from_url url ext).1
               then []
               else [(item.1, DESCRIBED_AT_URL, url)])).
Proof.
  induction items as [|item items IH]; intros acc; cbn [foldl].
  - destruct acc. cbn. by rewrite !app_nil_r.
  - rewrite IH, extract_urls_fold. cbn [fst snd mbind list_bind].
    by rewrite <-!app_assoc.
Qed.

Lemma split_lengths {A B C} (f : A → bool) (g : A → B) (h : A → C) (l : list A) :
  length (l ≫= λ x, if f x then [g x] else [])
  + length (l ≫= λ x, if f x then [] else [h x]) = length l.
Proof.
  induction l as [|x l IH]; [done|]. cbn [mbind list_bind].
  rewrite !length_app. destruct (f x); cbn; lia.
Qed.

Lemma get_set_items (to_add : gmap string (gset string)) qid url :
  url ∈ get_set to_add qid ↔
  ∃ item, item ∈ map_to_list to_add ∧ item.1 = qid ∧ url ∈ elements item.2.
Proof.
  unfold get_set. split.
  - destruct (to_add !! qid) as [urls|] eqn:Hq; cbn; [|set_solver].
    intros Hin. exists (qid, urls). split_and!; [|done|by apply elem_of_elements].
    by apply elem_of_map_to_list.
  - intros ([q urls] & Hitem & <- & Hin). cbn in *.
    apply elem_of_map_to_list in Hitem. rewrite Hitem. cbn.
    by apply elem_of_elements.
Qed.

(** X12. Every link to be added ends in exactly one of the two lists:
    among the external identifiers, with the identifier and the PID found
    for it, when an identifier is found in the URL, and among the URL
    statements under the described-at-URL property otherwise; nothing
    else is in the lists, and together they are as long as there are
    links to add. *)
Theorem extract_ids_from_urls_partition (to_add : gmap string (gset string))
    (ext_id_pids_to_urls : E) :
  let out :=
    _extract_ids_from_urls get_external_id_from_url DESCRIBED_AT_URL to_add
      ext_id_pids_to_urls in
  (∀ qid pid ext_id,
     (qid, pid, ext_id) ∈ out.1 ↔
     ∃ url, url ∈ get_set to_add qid
            ∧ str_truthy (get_external_id_from_url url ext_id_pids_to_urls).1
              = true
            ∧ get_external_id_from_url url ext_id_pids_to_urls
              = (Some ext_id, pid))
  ∧ (∀ qid property url,
       (qid, property, url) ∈ out.2 ↔
       property = DESCRIBED_AT_URL
       ∧ url ∈ get_set to_add qid
       ∧ str_truthy (get_external_id_from_url url ext_id_pids_to_urls).1
         = false)
  ∧ length out.1 + length out.2
    = sum_list (size <$> (map_to_list to_add).*2).
Proof.
  cbn zeta. unfold _extract_ids_from_urls. rewrite extract_items_fold.
  cbn [fst snd app]. split_and!.
  - intros qid pid ext_id. rewrite list_elem_of_bind.
    setoid_rewrite list_elem_of_bind. setoid_rewrite get_set_items. split.
    + intros (item & (url & Hin & Hurl) & Hitem).
      destruct (get_external_id_from_url url ext_id_pids_to_urls)
        as [[e|] p] eqn:Hget; cbn [fst snd str_truthy] in *;
        [|by apply elem_of_nil in Hin].
      destruct (bool_decide (e ≠ EmptyString)) eqn:He;
        [|by apply elem_of_nil in Hin].
      apply list_elem_of_singleton in Hin. injection Hin as -> -> ->.
      exists url. rewrite Hget. cbn. split_and!; [by exists item|done..].
    + intros (url & (item & Hitem & <- & Hurl) & Htr & Hget).
      exists item. split; [|done]. exists url. split; [|done].
      rewrite Hget in *. cbn [fst snd] in *. rewrite Htr. cbn. in_head.
  - intros qid property url. rewrite list_elem_of_bind.
    setoid_rewrite list_elem_of_bind. setoid_rewrite get_set_items. split.
    + intros (item & (u & Hin & Hurl) & Hitem).
      destruct (str_truthy (get_external_id_from_url u ext_id_pids_to_urls).1)
        eqn:Htr; [by apply elem_of_nil in Hin|].
      apply list_elem_of_singleton in Hin. injection Hin as -> -> ->.
      split_and!; [done|by exists item|done].
    + intros (-> & (item & Hitem & <- & Hurl) & Htr).
      exists item. split; [|done]. exists url. split; [|done].
      rewrite Htr. in_head.
  - induction (map_to_list to_add) as [|[q urls] items IH]; [done|].
    cbn [mbind list_bind fmap list_fmap sum_list snd fst] in *.
    rewrite !length_app.
    pose proof (split_lengths
      (λ url, str_truthy (get_external_id_from_url url ext_id_pids_to_urls).1)
      (λ url, (q, (get_external_id_from_url url ext_id_pids_to_urls).2,
               default EmptyString
                 (get_external_id_from_url url ext_id_pids_to_urls).1))
      (λ url, (q, DESCRIBED_AT_URL, url)) (elements urls)) as Hlen.
    cbn [fst] in Hlen. cbn [sum_list_with].
    assert (size urls = length (elements urls)) as -> by done.
    change (id (length (elements urls))) with (length (elements urls)).
    lia.
Qed.
End gathering_facts.

(** ** The whole link check *)

Lemma assess_deprecate_links (source : gmap string wikidata_item)
    (target : gmap string (list string)) q t :
  q ∈ get_set (_assess source target ∅ ∅).1 t ↔
  t ∈ identifiers_of source q
  ∧ links_of source q ≠ ∅
  ∧ ∃ l, target !! t = Some l ∧ l ≠ []
         ∧ ∀ url, url ∈ l → url ∉ links_of source q.
Proof.
  rewrite assess_to_deprecate.
  unfold identifiers_of, links_of, links_entry, assessed, deprecates, get_set.
  rewrite lookup_empty. cbn. split.
  - intros [?|(data & sl & Hq & (Hl & Hne & Hid) & l & Ht & Hl' & Hsh)];
      [set_solver|].
    rewrite Hq, Hl. cbn. split_and!; [done..|].
    exists l. split_and!; [done..|]. unfold shared_links in Hsh. set_solver.
  - destruct (source !! q) as [data|] eqn:Hq; [|set_solver].
    intros (Hid & Hne & l & Ht & Hl' & Hno). right.
    destruct (links data) as [sl|] eqn:Hl; [|done]. cbn in *.
    exists data, sl. split_and!; [done..|].
    exists l. split_and!; [done..|]. unfold shared_links. set_solver.
Qed.

Section check_links_facts.
Variable MUSICIAN BAND ACTOR FILM_DIRECTOR FILM_PRODUCER : string.
Variable link_rows : string → list (string * string).
Variable run_identifier_or_links_query :
  string * option string → string → string → nat → list (list (string * string)).
Context {U E : Type}.
Variable get_links : list string → U → E → list (list (string * string)).
Variable get_external_id_from_url : string → E → option string * option string.
Variable DESCRIBED_AT_URL : string.
Variable CATALOG_MAPPING : list (string * (string * string)).
Variable relevant_pids : U * E.

(** X13. The link check from end to end, for a catalog and an entity
    type of the tables whose link entity exists, when every link found
    in Wikidata comes with a QID that has an identifier statement: it
    succeeds, and it marks the statement (QID, target id) for
    deprecation exactly when the statement is among the identifier
    statements, the QID has a link in Wikidata, the target id has a link
    in the catalog, and no catalog link of the target id is a Wikidata
    link of the QID. *)
Theorem check_links_deprecates entity catalog catalog_terms catalog_constants
    catalog_entity link_entity :
  _get_vocabulary CATALOG_MAPPING catalog = ok catalog_terms →
  _get_catalog_constants MUSICIAN BAND ACTOR FILM_DIRECTOR FILM_PRODUCER catalog
    = ok catalog_constants →
  dict_get entity catalog_constants = Some catalog_entity →
  ce_link_entity catalog_entity = Some link_entity →
  let statements :=
    concat (run_identifier_or_links_query
              ("identifier", dict_get entity HANDLED_ENTITIES)
              (ce_qid catalog_entity) catalog_terms.1 0) in
  let links :=
    concat (get_links (map_to_list (foldl add_identifier ∅ statements)).*1
              relevant_pids.1 relevant_pids.2) in
  (∀ r, r ∈ links → ∃ tid, (r.1, tid) ∈ statements) →
  ∃ to_deprecate ext_ids_to_add urls_to_add wikidata_links,
    check_links MUSICIAN BAND ACTOR FILM_DIRECTOR FILM_PRODUCER link_rows
      run_identifier_or_links_query get_links get_external_id_from_url
      DESCRIBED_AT_URL CATALOG_MAPPING relevant_pids entity catalog
    = ok (to_deprecate, ext_ids_to_add, urls_to_add, wikidata_links)
    ∧ ∀ qid tid,
        qid ∈ get_set to_deprecate tid ↔
        (qid, tid) ∈ statements
        ∧ (∃ url, (qid, url) ∈ links)
        ∧ (∃ url, (tid, url) ∈ link_rows link_entity)
        ∧ (∀ url, (tid, url) ∈ link_rows link_entity → (qid, url) ∉ links).
Proof.
  intros Hvoc Hcc Hce Hle statements links Hknown.
  unfold check_links, _gather_target_links, _gather_identifiers.
  rewrite Hvoc, Hcc. cbn [bind ok]. unfold _get_catalog_entity.
  rewrite Hce. cbn [bind ok]. rewrite Hle. cbn [bind ok].
  rewrite foldl_foldl_concat. fold statements.
  destruct relevant_pids as [url_pids ext] eqn:Hpids. cbn [fst snd] in links.
  unfold _gather_wikidata_links. rewrite for_each_for_each_concat. fold links.
  set (w0 := foldl add_identifier ∅ statements) in *.
  assert (∀ qid,
            (∀ tid, tid ∈ identifiers_of w0 qid ↔ (qid, tid) ∈ statements)
            ∧ links_of w0 qid = ∅
            ∧ (is_Some (w0 !! qid) ↔ ∃ tid, (qid, tid) ∈ statements)) as Hw0.
  { intros qid. unfold w0.
    destruct (add_identifiers_spec statements ∅ qid) as (Hids & Hlinks & Hkey).
    unfold links_of. rewrite Hlinks.
    unfold identifiers_of, links_entry in *. rewrite lookup_empty in *.
    split_and!; [|done|].
    - intros tid. rewrite Hids. set_solver.
    - rewrite Hkey. split; [|by auto]. by intros [[]%is_Some_None|?]. }
  destruct (add_wikidata_links_ok links w0) as (w1 & -> & Hids & Hlinks & Hkey).
  { intros r Hr. apply Hw0. by apply Hknown. }
  cbn [bind ok].
  destruct (_assess w1 (foldl append_link ∅ (link_rows link_entity)) ∅ ∅)
    as [to_deprecate to_add] eqn:Hassess.
  destruct (_extract_ids_from_urls get_external_id_from_url DESCRIBED_AT_URL
              to_add ext) as [ext_ids urls].
  exists to_deprecate, ext_ids, urls, w1. split; [done|].
  intros qid tid.
  change to_deprecate with (to_deprecate, to_add).1. rewrite <-Hassess.
  rewrite assess_deprecate_links, Hids.
  assert (∀ url, url ∈ links_of w1 qid ↔ (qid, url) ∈ links) as Hl1.
  { intros url. rewrite Hlinks. rewrite (proj1 (proj2 (Hw0 qid))). set_solver. }
  rewrite (proj1 (Hw0 qid)), group_links_exact.
  split.
  - intros (Hst & Hne & l & Hl & Hlne & Hno). split; [done|].
    apply set_choose_L in Hne as [url Hurl]. split; [exists url; by apply Hl1|].
    destruct ((filter (λ r, r.1 = tid) (link_rows link_entity)).*2)
      as [|u us] eqn:Hf; [done|]. injection Hl as <-.
    split.
    + exists u. apply group_links_urls. rewrite Hf. in_head.
    + intros url' Hrow Hlink. apply (Hno url').
      * rewrite <-Hf. by apply group_links_urls.
      * by apply Hl1.
  - intros (Hst & [url Hurl] & [u Hu] & Hno). split; [done|]. split.
    + intros Hempty. apply Hl1 in Hurl. rewrite Hempty in Hurl. set_solver.
    + apply group_links_urls in Hu.
      destruct ((filter (λ r, r.1 = tid) (link_rows link_entity)).*2)
        as [|u' us] eqn:Hf; [by apply elem_of_nil in Hu|].
      eexists. split_and!; [done..|].
      intros url' Hin Hlink. apply (Hno url').
      * apply group_links_urls. by rewrite Hf.
      * by apply Hl1.
Qed.
End check_links_facts.

(** ** The existence check *)

Section check_existence_facts.
Variable run_identifier_or_links_query :
  string * option string → string → string → nat → list (list (string * string)).
Context {Row : Type}.
Variable catalog_rows : string → string → list Row.

Lemma defaultdict_add_nonempty (d : gmap string (gset string)) k x :
  (∀ t s, d !! t = Some s → s ≠ ∅) →
  ∀ t s, defaultdict_add d k x !! t = Some s → s ≠ ∅.
Proof.
  intros Hd t s. unfold defaultdict_add.
  destruct (decide (k = t)) as [->|Hne].
  - rewrite lookup_insert_eq. intros [= <-]. set_solver.
  - rewrite lookup_insert_ne by done. apply Hd.
Qed.

Lemma invalid_fold entity (rs : list (string * string)) :
  ∀ invalid : gmap string (gset string),
  let invalid' :=
    foldl (λ (invalid : gmap string (gset string)) r,
             match catalog_rows entity r.2 with
             | [] => defaultdict_add invalid r.2 r.1
             | _ => invalid
             end) invalid rs in
  (∀ qid tid, qid ∈ get_set invalid' tid ↔
              qid ∈ get_set invalid tid
              ∨ ((qid, tid) ∈ rs ∧ catalog_rows entity tid = []))
  ∧ ((∀ t s, invalid !! t = Some s → s ≠ ∅) →
     ∀ t s, invalid' !! t = Some s → s ≠ ∅).
Proof.
  induction rs as [|[q t] rs IH]; intros invalid; cbn [foldl].
  - split; [|done]. intros qid tid. rewrite elem_of_nil. tauto.
  - cbn zeta in IH. cbn [fst snd].
    destruct (catalog_rows entity t) as [|row rows] eqn:Hrows.
    + destruct (IH (defaultdict_add invalid t q)) as [Hmem Hne]. split.
      * intros qid tid. rewrite Hmem, get_set_add, elem_of_cons. split.
        -- intros [[?|[-> ->]]|[? ?]]; [by left|right|right]; by auto.
        -- intros [?|[[Heq|?] ?]]; [by left; left| |by right].
           injection Heq as -> ->. left. by right.
      * intros Hd. apply Hne. by apply defaultdict_add_nonempty.
    + destruct (IH invalid) as [Hmem Hne]. split; [|done].
      intros qid tid. rewrite Hmem, elem_of_cons. split.
      * intros [?|[? ?]]; [by left|right]; by auto.
      * intros [?|[[Heq|?] Hr]]; [by left| |by right].
        injection Heq as -> ->. congruence.
Qed.

(** X14. The existence check reports a QID under a target identifier
    exactly when the query pairs them and the catalog has no row for
    that identifier; an identifier that exists in the catalog is never
    reported, and every reported identifier comes with a non-empty list
    of QIDs without repetition. *)
Theorem check_existence_spec (class_or_occupation_query class_qid catalog_pid
    entity : string) :
  let statements :=
    concat (run_identifier_or_links_query
              ("identifier", Some class_or_occupation_query)
              class_qid catalog_pid 0) in
  let invalid :=
    check_existence run_identifier_or_links_query catalog_rows
      class_or_occupation_query class_qid catalog_pid entity in
  (∀ qid tid, qid ∈ default [] (invalid !! tid) ↔
              (qid, tid) ∈ statements ∧ catalog_rows entity tid = [])
  ∧ (∀ tid qids, invalid !! tid = Some qids → qids ≠ [] ∧ NoDup qids).
Proof.
  cbn zeta. unfold check_existence. rewrite foldl_foldl_concat.
  set (statements := concat _).
  destruct (invalid_fold entity statements ∅) as [Hmem Hne].
  cbn zeta in Hmem, Hne. set (invalid := foldl _ ∅ statements) in *.
  split.
  - intros qid tid. rewrite lookup_fmap.
    specialize (Hmem qid tid). unfold get_set in Hmem.
    rewrite lookup_empty in Hmem. cbn in Hmem.
    destruct (invalid !! tid) as [s|]; cbn in *.
    + rewrite elem_of_elements, Hmem. set_solver.
    + rewrite elem_of_nil. rewrite elem_of_empty in Hmem. tauto.
  - intros tid qids. rewrite lookup_fmap.
    destruct (invalid !! tid) as [s|] eqn:Hs; cbn; [|done].
    intros [= <-]. split; [|apply NoDup_elements].
    intros Hnil. apply elements_empty_inv in Hnil.
    apply leibniz_equiv in Hnil. by apply (Hne (ltac:(set_solver)) tid s).
Qed.
End check_existence_facts.

(** ** The blocking defaults of the classification command *)

Section classify_command_facts.
Variable NAME_TOKENS : string.

(** X15. After the defaults of the command, with blocking fields that
    are not empty strings: both fields are set; they are the two given
    fields when both were given, the one given field twice when one was
    given, and the name tokens twice when none was. *)
Theorem default_blocks_spec (target_block wd_block : option string) :
  target_block ≠ Some EmptyString →
  wd_block ≠ Some EmptyString →
  classify.default_blocks NAME_TOKENS target_block wd_block =
    match wd_block, target_block with
    | Some wd, Some target => (Some wd, Some target)
    | Some wd, None => (Some wd, Some wd)
    | None, Some target => (Some target, Some target)
    | None, None => (Some NAME_TOKENS, Some NAME_TOKENS)
    end.
Proof.
  intros Ht Hw. unfold classify.default_blocks, py_or, str_truthy.
  destruct wd_block as [wd|], target_block as [target|]; cbn;
    repeat case_bool_decide; simplify_eq; try done; try lia.
Qed.
End classify_command_facts.

(** ** The upload *)

Section upload_facts.
Context {score : Type}.

Lemma insert_pairs_lookup (ks : list (string * string)) :
  ∀ (links : gmap string string) qid tid,
  foldl (λ links (k : string * string), <[k.1 := k.2]> links) links ks !! qid
    = Some tid →
  links !! qid = Some tid ∨ (qid, tid) ∈ ks.
Proof.
  induction ks as [|[q t] ks IH]; intros links qid tid; cbn [foldl]; [by left|].
  intros [Hl|Hin]%IH; [|right; in_tail]. cbn in Hl.
  destruct (decide (q = qid)) as [->|Hne].
  - rewrite lookup_insert_eq in Hl. injection Hl as ->. right. in_head.
  - rewrite lookup_insert_ne in Hl by done. by left.
Qed.

Lemma insert_pairs_dom (ks : list (string * string)) :
  ∀ (links : gmap string string) qid,
  is_Some (foldl (λ links (k : string * string), <[k.1 := k.2]> links) links ks
           !! qid) ↔
  is_Some (links !! qid) ∨ ∃ tid, (qid, tid) ∈ ks.
Proof.
  induction ks as [|[q t] ks IH]; intros links qid; cbn [foldl].
  - setoid_rewrite elem_of_nil. naive_solver.
  - rewrite IH. cbn. rewrite lookup_insert_is_Some'.
    setoid_rewrite elem_of_cons. naive_solver.
Qed.

Lemma first_by_key_id_elem {A} `{EqDecision A} (l : list A) x :
  x ∈ first_by_key id [] l ↔ x ∈ l.
Proof.
  split; [apply first_by_key_subseteq|].
  intros Hx. destruct (first_by_key_complete id l [] x Hx) as [?%elem_of_nil|Hy];
    [done|].
  destruct Hy as (y & Hy & Heq). cbn in Heq. by subst y.
Qed.

Lemma first_by_key_snoc {A} `{EqDecision A} (l : list A) x : ∀ seen,
  x ∉ seen → x ∉ l →
  first_by_key id seen (l ++ [x]) = first_by_key id seen l ++ [x].
Proof.
  induction l as [|y l IH]; intros seen Hseen Hl; cbn.
  - by rewrite decide_False.
  - apply not_elem_of_cons in Hl as [Hne Hl].
    destruct (decide (y ∈ seen)); [by apply IH|].
    cbn. f_equal. apply IH; [|done]. by apply not_elem_of_cons.
Qed.

(** X17. The dictionary that is uploaded gives every QID of the
    predictions one target identifier, one that is predicted for it, and
    has no other key; of several identifiers predicted for a QID, the
    one whose pair comes last in the series, when that pair did not
    occur before, is the one kept. *)
Theorem upload_links_spec (predictions : list ((string * string) * score)) :
  (∀ qid tid, classify.upload_links predictions !! qid = Some tid →
              ∃ s, ((qid, tid), s) ∈ predictions)
  ∧ (∀ qid, is_Some (classify.upload_links predictions !! qid) ↔
            ∃ tid s, ((qid, tid), s) ∈ predictions)
  ∧ (∀ qid tid s,
       (qid, tid) ∉ predictions.*1 →
       classify.upload_links (predictions ++ [((qid, tid), s)]) !! qid = Some tid).
Proof.
  unfold classify.upload_links. split_and!.
  - intros qid tid [Hl|Hin]%insert_pairs_lookup; [by rewrite lookup_empty in Hl|].
    apply first_by_key_id_elem, list_elem_of_fmap in Hin as ([k s] & Hk & Hin).
    cbn in Hk. subst k. by exists s.
  - intros qid. rewrite insert_pairs_dom, lookup_empty. split.
    + intros [[]%is_Some_None|[tid Hin]].
      apply first_by_key_id_elem, list_elem_of_fmap in Hin as ([k s] & Hk & Hin).
      cbn in Hk. subst k. by exists tid, s.
    + intros (tid & s & Hin). right. exists tid.
      apply first_by_key_id_elem, list_elem_of_fmap. by exists ((qid, tid), s).
  - intros qid tid s Hnew. rewrite fmap_app. cbn [fmap list_fmap fst].
    rewrite first_by_key_snoc; [|by apply not_elem_of_nil|done].
    rewrite foldl_app. cbn [foldl fst snd]. by rewrite lookup_insert_eq.
Qed.
End upload_facts.

(** ** Training: what becomes of the positive samples *)

Section train_facts.
Context {WdChunk TargetChunk FV Model : Type}.
Variable train_test_block : WdChunk → TargetChunk → gset (string * string).
Variable full_text_query_block : WdChunk → nat → gset (string * string).
Variable extract_features : gset (string * string) → WdChunk → TargetChunk → FV.
Variable _train : list FV → option (gset (string * string)) → Model.
Variable target_pass : nat → list TargetChunk.

Local Abbreviation positive := (train.actual_positive train_test_block full_text_query_block).
Local Abbreviation block :=
  (train.block train_test_block full_text_query_block extract_features).
Local Abbreviation features i w :=
  (extract_features (full_text_query_block w i) w).

Lemma first_pass w (l : list TargetChunk) : ∀ fvs index,
  for_each (block 1 w) (fvs, index) l =
  ok (fvs ++ (features 1 w <$> l),
      match last l with
      | Some t => Some (positive w 1 t)
      | None => index
      end).
Proof.
  induction l as [|t l IH]; intros fvs index; cbn [for_each].
  - by rewrite app_nil_r.
  - unfold train.block at 1. rewrite decide_True by done. cbn [bind ok].
    rewrite IH. cbn [fmap list_fmap]. rewrite <-app_assoc. cbn [app].
    rewrite last_cons. by destruct (last l).
Qed.

Lemma later_pass i w (l : list TargetChunk) : i ≠ 1 → ∀ fvs index,
  for_each (block i w) (fvs, Some index) l =
  ok (fvs ++ (features i w <$> l), Some (index ∪ ⋃ (positive w i <$> l))).
Proof.
  intros Hi. induction l as [|t l IH]; intros fvs index; cbn [for_each].
  - rewrite !fmap_nil, app_nil_r, union_list_nil. by rewrite (right_id_L ∅ (∪)).
  - unfold train.block at 1. rewrite decide_False by done. cbn [bind ok].
    rewrite IH, !fmap_cons, union_list_cons.
    by rewrite <-app_assoc, (assoc_L (∪)).
Qed.

Lemma later_chunks (items : list (nat * WdChunk)) :
  (∀ item, item ∈ items → item.1 ≠ 1) →
  ∀ fvs index, ∃ fvs' index',
    for_each (λ st (item : nat * WdChunk),
                for_each (block item.1 item.2) st (target_pass item.1))
      (fvs, Some index) items = ok (fvs', Some index')
    ∧ length fvs' =
        length fvs + sum_list ((λ item, length (target_pass item.1)) <$> items)
    ∧ ∀ p, p ∈ index' ↔
           p ∈ index ∨ ∃ item t, item ∈ items ∧ t ∈ target_pass item.1
                                 ∧ p ∈ positive item.2 item.1 t.
Proof.
  induction items as [|[i w] items IH]; intros Hi fvs index; cbn [for_each].
  - exists fvs, index. split_and!; [done|cbn; lia|].
    intros p. setoid_rewrite elem_of_nil. naive_solver.
  - cbn [fst snd]. rewrite later_pass by (apply (Hi (i, w)); in_head).
    cbn [bind ok].
    destruct (IH (λ item Hin, Hi item ltac:(in_tail))
                (fvs ++ (features i w <$> target_pass i))
                (index ∪ ⋃ (positive w i <$> target_pass i)))
      as (fvs' & index' & -> & Hlen & Hmem).
    exists fvs', index'. split_and!; [done| |].
    + rewrite Hlen, length_app, length_fmap. cbn. lia.
    + intros p. rewrite Hmem, elem_of_union, elem_of_union_list.
      setoid_rewrite elem_of_cons. split.
      * intros [[?|(X & (t & -> & Ht)%list_elem_of_fmap & Hp)]|(item & t & ? & ? & ?)].
        -- by left.
        -- right. exists (i, w), t. by split_and!; [left|..].
        -- right. exists item, t. by split_and!; [right|..].
      * intros [?|(item & t & [->|?] & Ht & Hp)].
        -- by left; left.
        -- left. right. exists (positive w i t). split; [|done].
           apply list_elem_of_fmap. by exists t.
        -- right. by exists item, t.
Qed.

Lemma pass_lengths (ws : list WdChunk) : ∀ n,
  (λ item : nat * WdChunk, length (target_pass item.1))
    <$> imap (λ k w, (S (n + k), w)) ws
  = (λ i, length (target_pass i)) <$> seq (S n) (length ws).
Proof.
  induction ws as [|w ws IH]; intros n; [done|].
  cbn [imap length seq fmap list_fmap fst]. rewrite Nat.add_0_r. f_equal.
  rewrite <-(IH (S n)). f_equal. apply imap_ext. intros k w' _. cbn.
  f_equal. lia.
Qed.

(** X18. When the first Wikidata chunk meets at least one target
    chunk, training goes through, with one block of feature vectors for
    every pair of chunks that met. The positive samples it trains on are
    those of the first Wikidata chunk with the last target chunk it met,
    and those of the later Wikidata chunks with every target chunk they
    met: on the first Wikidata chunk each target chunk replaces the
    positives of the one before, which are lost unless they are found
    again. *)
Theorem train_positive_samples w (ws : list WdChunk) ts t :
  target_pass 1 = ts ++ [t] →
  ∃ feature_vectors index,
    train.execute train_test_block full_text_query_block extract_features
      _train target_pass (w :: ws)
    = ok (_train feature_vectors (Some index))
    ∧ length feature_vectors =
        sum_list ((λ i, length (target_pass i)) <$> seq 1 (S (length ws)))
    ∧ ∀ p, p ∈ index ↔
           p ∈ positive w 1 t
           ∨ ∃ k w' t', ws !! k = Some w' ∧ t' ∈ target_pass (S (S k))
                        ∧ p ∈ positive w' (S (S k)) t'.
Proof.
  intros Hpass. unfold train.execute, train.gather.
  cbn [imap for_each fst snd]. rewrite first_pass, Hpass, last_snoc.
  cbn [bind ok app].
  destruct (later_chunks (imap ((λ k wd_chunk, (S k, wd_chunk)) ∘ S) ws)) with
    (fvs := features 1 w <$> ts ++ [t]) (index := positive w 1 t)
    as (fvs' & index' & Heq & Hlen & Hmem).
  { intros item (k & w' & -> & _)%elem_of_lookup_imap. done. }
  rewrite Heq. cbn [bind ok].
  assert (fvs' ≠ []) as Hne.
  { intros ->. rewrite length_fmap, length_app in Hlen. cbn in Hlen. lia. }
  destruct fvs' as [|fv fvs']; [done|].
  eexists _, _. split; [reflexivity|]. split.
  - rewrite Hlen, length_fmap, <-Hpass. cbn [seq fmap list_fmap sum_list_with].
    f_equal. by rewrite <-(pass_lengths ws 1).
  - intros p. rewrite Hmem. split; (intros [?|H]; [by left|right]).
    + destruct H as (item & t' & (k & w' & -> & Hk)%elem_of_lookup_imap & Ht & Hp).
      by exists k, w', t'.
    + destruct H as (k & w' & t' & Hk & Ht & Hp).
      exists (S (S k), w'), t'. split_and!; [|done..].
      apply elem_of_lookup_imap. by exists k, w'.
Qed.

(** X19. Training fails when there is nothing to train on: without any
    pair of chunks the concatenation of the feature vectors raises a
    [ValueError]; and when the first Wikidata chunk meets no target chunk
    but the second one does, adding to the positive samples, which are
    still [None], raises a [TypeError]. *)
Theorem train_without_first_pass (ws : list WdChunk) :
  ((∀ i, target_pass i = []) →
   train.execute train_test_block full_text_query_block extract_features
     _train target_pass ws
   = raise (ValueError "No objects to concatenate"))
  ∧ (∀ w1 w2 ws' t ts,
       ws = w1 :: w2 :: ws' →
       target_pass 1 = [] →
       target_pass 2 = t :: ts →
       train.execute train_test_block full_text_query_block extract_features
         _train target_pass ws
       = raise (TypeError
                  "unsupported operand type(s) for |=: 'NoneType' and 'MultiIndex'")).
Proof.
  split.
  - intros Hnone. unfold train.execute, train.gather.
    assert (∀ (items : list (nat * WdChunk)) st,
              for_each (λ st (item : nat * WdChunk),
                          for_each (block item.1 item.2) st (target_pass item.1))
                st items = ok st) as ->; [|done].
    induction items as [|item items IH]; intros st; cbn [for_each]; [done|].
    rewrite Hnone. cbn [for_each bind ok]. apply IH.
  - intros w1 w2 ws' t ts -> H1 H2. unfold train.execute, train.gather.
    cbn [imap for_each fst snd compose]. rewrite H1. cbn [for_each bind ok].
    rewrite H2. cbn [for_each]. unfold train.block at 1.
    rewrite decide_False by done. done.
Qed.
End train_facts.

(** ** The pipeline *)

Section pipeline_facts.
Variable call : pipeline.command → list (option string) → pipeline.outcome.
Variable supported_entities_for_target : string → list (option string).

Lemma invoke_no_exit_ok function args trace :
  pipeline.only_exits call →
  pipeline._invoke_no_exit call function args trace =
  (trace ++ [pipeline.invoke function args], ok ()).
Proof.
  intros Hcall. unfold pipeline._invoke_no_exit.
  by destruct (Hcall function args) as [-> | ->].
Qed.

Lemma and_then_ok (p q : pipeline.procedure) trace steps :
  p trace = (trace ++ steps, ok ()) →
  pipeline.and_then p q trace = q (trace ++ steps).
Proof. intros Hp. unfold pipeline.and_then. by rewrite Hp. Qed.

Lemma three_invocations f1 f2 f3 args (rest : pipeline.procedure) steps trace :
  pipeline.only_exits call →
  (∀ trace, rest trace = (trace ++ steps, ok ())) →
  pipeline.and_then (pipeline._invoke_no_exit call f1 args)
    (pipeline.and_then (pipeline._invoke_no_exit call f2 args)
       (pipeline.and_then (pipeline._invoke_no_exit call f3 args) rest)) trace
  = (trace ++ [pipeline.invoke f1 args; pipeline.invoke f2 args;
               pipeline.invoke f3 args] ++ steps, ok ()).
Proof.
  intros Hcall Hrest. unfold pipeline.and_then.
  rewrite !invoke_no_exit_ok by done. cbn. rewrite Hrest.
  by rewrite <-!app_assoc.
Qed.

(** The arguments on turn [k] of the loop of the validator, over a list
    that starts with [head]. *)
Lemma validator_loop_steps (entity_types : list (option string)) :
  pipeline.only_exits call →
  ∀ head rest trace,
  pipeline.validator_loop call (head :: rest) entity_types trace =
  (trace ++
   concat (imap (λ k _,
                   let args := head :: reverse (take (S k) entity_types) ++ rest in
                   [pipeline.invoke pipeline.dead_ids_cli args;
                    pipeline.invoke pipeline.links_cli args;
                    pipeline.invoke pipeline.bio_cli args])
             entity_types),
   ok ()).
Proof.
  intros Hcall. induction entity_types as [|e es IH]; intros head rest trace.
  - cbn. by rewrite app_nil_r.
  - cbn [pipeline.validator_loop]. unfold pipeline.insert_1. cbn [take drop app].
    rewrite (three_invocations _ _ _ _ _
               (concat (imap (λ k _,
                   let args := head :: reverse (take (S k) es) ++ e :: rest in
                   [pipeline.invoke pipeline.dead_ids_cli args;
                    pipeline.invoke pipeline.links_cli args;
                    pipeline.invoke pipeline.bio_cli args]) es)));
      [|done|intros tr; apply IH].
    cbn [imap concat take reverse]. do 3 f_equal.
    f_equal. apply imap_ext. intros k x _. cbn [compose take].
    by rewrite reverse_cons, <-app_assoc.
Qed.

(** X20. When no command raises, the validator runs the three checks
    for every entity type, and on turn k (from 0) their arguments are
    the target, then the first k+1 entity types in reverse order, then
    the upload flag if there is one: the one argument list gets every
    entity type inserted and none removed, so only the first turn has
    the arguments [target, entity type]. *)
Theorem validator_arguments target (upload : bool) trace :
  pipeline.only_exits call →
  let entity_types := supported_entities_for_target target in
  let flag := if upload then [Some "--upload"] else [] in
  pipeline._validator call supported_entities_for_target target upload trace =
  (trace ++
   concat (imap (λ k _,
                   let args := Some target :: reverse (take (S k) entity_types)
                                 ++ flag in
                   [pipeline.invoke pipeline.dead_ids_cli args;
                    pipeline.invoke pipeline.links_cli args;
                    pipeline.invoke pipeline.bio_cli args])
             entity_types),
   ok ()).
Proof.
  intros Hcall. cbn zeta. unfold pipeline._validator.
  destruct upload; by rewrite validator_loop_steps.
Qed.

Lemma linker_loop_steps target upload_option (target_types : list (option string)) :
  pipeline.only_exits call →
  ∀ trace,
  pipeline.linker_loop call target upload_option target_types trace =
  (trace ++
   (filter (λ t, str_truthy t = true) target_types ≫= λ target_type,
      [pipeline.invoke pipeline.evaluate_cli
         [Some "slp"; Some target; target_type];
       pipeline.invoke pipeline.train_cli
         [Some "slp"; Some target; target_type];
       pipeline.invoke pipeline.classify_cli
         [Some "slp"; Some target; target_type; Some upload_option]]),
   ok ()).
Proof.
  intros Hcall. induction target_types as [|t ts IH]; intros trace.
  - cbn. by rewrite app_nil_r.
  - cbn [pipeline.linker_loop]. destruct (str_truthy t) eqn:Ht.
    + rewrite filter_cons_True by done. cbn [mbind list_bind].
      unfold pipeline.and_then. rewrite !invoke_no_exit_ok by done. cbn.
      rewrite IH. by rewrite <-!app_assoc.
    + rewrite filter_cons_False by congruence. apply IH.
Qed.

(** X21. When no command raises (leaving through [SystemExit]
    included), the pipeline runs to its end: it sets the credentials if
    a path is given, then imports and validates the links if the
    importer is on, then for every entity type that is not empty
    evaluates, trains and classifies the single-layer perceptron with the
    upload option if the linker is on, then runs the validator if it is
    on. *)
Theorem pipeline_steps target (validator importer linker upload : bool)
    credentials_path trace :
  pipeline.only_exits call →
  pipeline.cli call supported_entities_for_target target validator importer
    linker upload credentials_path trace =
  (trace
   ++ (if str_truthy credentials_path
       then [pipeline.set_credentials_from_path
               (default EmptyString credentials_path)]
       else [])
   ++ (if importer
       then [pipeline.invoke pipeline.import_cli [Some target];
             pipeline.invoke pipeline.validate_links [Some target]]
       else [])
   ++ (if linker
       then filter (λ t, str_truthy t = true)
              (supported_entities_for_target target) ≫= λ target_type,
              [pipeline.invoke pipeline.evaluate_cli
                 [Some "slp"; Some target; target_type];
               pipeline.invoke pipeline.train_cli
                 [Some "slp"; Some target; target_type];
               pipeline.invoke pipeline.classify_cli
                 [Some "slp"; Some target; target_type;
                  Some (if upload then "--upload" else "--no-upload")]]
       else [])
   ++ (if validator
       then concat (imap (λ k _,
                      let args :=
                        Some target
                        :: reverse (take (S k) (supported_entities_for_target target))
                        ++ (if upload then [Some "--upload"] else []) in
                      [pipeline.invoke pipeline.dead_ids_cli args;
                       pipeline.invoke pipeline.links_cli args;
                       pipeline.invoke pipeline.bio_cli args])
                     (supported_entities_for_target target))
       else []),
   ok ()).
Proof.
  intros Hcall. unfold pipeline.cli.
  rewrite (and_then_ok _ _ _
             (if str_truthy credentials_path
              then [pipeline.set_credentials_from_path
                      (default EmptyString credentials_path)]
              else []))
    by (destruct (str_truthy credentials_path); by rewrite ?app_nil_r).
  rewrite (and_then_ok _ _ _
             (if importer
              then [pipeline.invoke pipeline.import_cli [Some target];
                    pipeline.invoke pipeline.validate_links [Some target]]
              else [])).
  2:{ destruct importer; [|unfold pipeline.skip; by rewrite app_nil_r].
      unfold pipeline._importer.
      rewrite (and_then_ok _ _ _ [pipeline.invoke pipeline.import_cli [Some target]])
        by by apply invoke_no_exit_ok.
      rewrite invoke_no_exit_ok by done. by rewrite <-app_assoc. }
  rewrite (and_then_ok _ _ _
             (if linker
              then filter (λ t, str_truthy t = true)
                     (supported_entities_for_target target) ≫= λ target_type,
                     [pipeline.invoke pipeline.evaluate_cli
                        [Some "slp"; Some target; target_type];
                      pipeline.invoke pipeline.train_cli
                        [Some "slp"; Some target; target_type];
                      pipeline.invoke pipeline.classify_cli
                        [Some "slp"; Some target; target_type;
                         Some (if upload then "--upload" else "--no-upload")]]
              else [])).
  2:{ destruct linker; [|unfold pipeline.skip; by rewrite app_nil_r].
      unfold pipeline._linker. by rewrite linker_loop_steps. }
  destruct validator.
  - unfold pipeline._validator. destruct upload;
      rewrite !validator_loop_steps by done; cbn [fst app];
      by rewrite <-!app_assoc.
  - unfold pipeline.skip. by rewrite <-!app_assoc, !app_nil_r.
Qed.

(** X22. A command that raises anything but [SystemExit] stops the
    pipeline: when the importer is on and the import raises, the
    exception leaves the pipeline and nothing else is run, whatever the
    other switches say. *)
Theorem pipeline_stops_on_error target (validator linker upload : bool)
    credentials_path trace e :
  call pipeline.import_cli [Some target] = pipeline.raises e →
  pipeline.cli call supported_entities_for_target target validator true
    linker upload credentials_path trace =
  (trace
   ++ (if str_truthy credentials_path
       then [pipeline.set_credentials_from_path
               (default EmptyString credentials_path)]
       else [])
   ++ [pipeline.invoke pipeline.import_cli [Some target]],
   raise e).
Proof.
  intros Hcall. unfold pipeline.cli, pipeline.and_then, pipeline._importer,
    pipeline.and_then, pipeline._invoke_no_exit.
  destruct (str_truthy credentials_path); rewrite Hcall; cbn;
    by rewrite <-?app_assoc.
Qed.
End pipeline_facts.

(** ** Instances on concrete inputs *)

Lemma gather_identifiers_spec_witness :
  let query := λ (_ : string * option string) (_ _ : string) (_ : nat),
                 [[("Q1", "1")]; [("Q2", "2")]] in
  ∃ aggregated,
    _gather_identifiers "Q639669" "Q215380" "Q33999" "Q2526255" "Q3282637"
      query "musician" "discogs" "P1953" ∅ = ok aggregated
    ∧ "2" ∈ identifiers_of aggregated "Q2".
Proof.
  intros query.
  destruct (gather_identifiers_spec "Q639669" "Q215380" "Q33999" "Q2526255"
              "Q3282637" query "musician" "discogs" "P1953" ∅ _ _
              eq_refl eq_refl)
    as (aggregated & Heq & Hids & _).
  exists aggregated. split; [exact Heq|].
  apply Hids. right. cbn. repeat constructor.
Defined.

Lemma gather_wikidata_links_spec_witness :
  let wikidata : gmap string wikidata_item := {["Q1" := WikidataItem {["1"]} None]} in
  let get_links := λ (_ : list string) (_ _ : ()), [[("Q1", "http://a.example")]] in
  ∃ wikidata',
    _gather_wikidata_links get_links wikidata () () = ok wikidata'
    ∧ "http://a.example" ∈ links_of wikidata' "Q1".
Proof.
  intros wikidata get_links.
  destruct (gather_wikidata_links_spec get_links wikidata () ()) as [Hok _].
  destruct Hok as (wikidata' & Heq & _ & _ & Hlinks).
  { intros r Hr. cbn in Hr. apply list_elem_of_singleton in Hr as ->.
    cbn. unfold wikidata. by rewrite lookup_singleton_eq. }
  exists wikidata'. split; [exact Heq|].
  apply Hlinks. right. cbn. in_head.
Defined.

Lemma check_links_deprecates_witness :
  let link_rows := λ link_entity : string,
    if decide (link_entity = "DiscogsMusicianLinkEntity")
    then [("1", "http://b.example")] else [] in
  let query := λ (_ : string * option string) (_ _ : string) (_ : nat),
                 [[("Q1", "1")]] in
  let get_links := λ (_ : list string) (_ _ : ()), [[("Q1", "http://a.example")]] in
  let get_external_id_from_url := λ (_ : string) (_ : ()),
                                    (None : option string, None : option string) in
  ∃ to_deprecate ext_ids_to_add urls_to_add wikidata_links,
    check_links "Q639669" "Q215380" "Q33999" "Q2526255" "Q3282637" link_rows
      query get_links get_external_id_from_url "P973"
      [("discogs", ("P1953", "Q504063"))] ((), ()) "musician" "discogs"
    = ok (to_deprecate, ext_ids_to_add, urls_to_add, wikidata_links)
    ∧ "Q1" ∈ get_set to_deprecate "1".
Proof.
  intros link_rows query get_links get_external_id_from_url.
  destruct (check_links_deprecates "Q639669" "Q215380" "Q33999" "Q2526255"
              "Q3282637" link_rows query get_links get_external_id_from_url
              "P973" [("discogs", ("P1953", "Q504063"))] ((), ())
              "musician" "discogs" _ _ _ _ eq_refl eq_refl eq_refl eq_refl)
    as (to_deprecate & ext_ids & urls & links & Heq & Hspec).
  { intros r Hr. cbn in Hr. apply list_elem_of_singleton in Hr as ->.
    exists "1". cbn. in_head. }
  exists to_deprecate, ext_ids, urls, links. split; [exact Heq|].
  apply Hspec. cbn. split_and!.
  - in_head.
  - exists "http://a.example". in_head.
  - exists "http://b.example". in_head.
  - intros url Hb%list_elem_of_singleton Ha%list_elem_of_singleton. congruence.
Defined.

Lemma default_blocks_spec_witness :
  classify.default_blocks "name_tokens" (Some "url") None = (Some "url", Some "url").
Proof.
  apply (default_blocks_spec "name_tokens" (Some "url") None); discriminate.
Defined.

Lemma upload_links_spec_witness :
  classify.upload_links [(("Q1", "1"), 7); (("Q1", "2"), 9)] !! "Q1" = Some "2".
Proof.
  destruct (upload_links_spec [(("Q1", "1"), 7)]) as (_ & _ & Hlast).
  apply (Hlast "Q1" "2" 9). cbn.
  intros Hin%list_elem_of_singleton. discriminate.
Defined.

Lemma train_positive_samples_witness :
  let target_pass := λ i : nat, if decide (i = 1) then [10; 20] else [] in
  ∃ feature_vectors index,
    train.execute (λ _ _ : nat, {[("Q1", "1")]}) (λ (_ : nat) (_ : nat), {[("Q1", "1")]})
      (λ _ w t, w + t) pair target_pass [1]
    = ok (feature_vectors, Some index)
    ∧ length feature_vectors = 2.
Proof.
  intros target_pass.
  destruct (train_positive_samples (λ _ _ : nat, {[("Q1", "1")]})
              (λ (_ : nat) (_ : nat), {[("Q1", "1")]})
              (λ _ w t, w + t) pair target_pass 1 [] [10] 20 eq_refl)
    as (fvs & index & Heq & Hlen & _).
  exists fvs, index. split; [exact Heq | exact Hlen].
Defined.

Lemma train_without_first_pass_witness :
  let target_pass := λ i : nat, if decide (i = 2) then [10] else [] in
  train.execute (λ _ _ : nat, {[("Q1", "1")]}) (λ (_ : nat) (_ : nat), {[("Q1", "1")]})
    (λ _ w t, w + t) (@pair (list nat) (option (gset (string * string))))
    target_pass [1; 2]
  = raise (TypeError
             "unsupported operand type(s) for |=: 'NoneType' and 'MultiIndex'").
Proof.
  intros target_pass.
  destruct (train_without_first_pass (λ _ _ : nat, {[("Q1", "1")]})
              (λ (_ : nat) (_ : nat), {[("Q1", "1")]})
              (λ _ w t, w + t) (@pair (list nat) (option (gset (string * string))))
              target_pass [1; 2]) as [_ Hlate].
  exact (Hlate 1 2 [] 10 [] eq_refl eq_refl eq_refl).
Defined.

Lemma validator_arguments_witness :
  pipeline._validator (λ _ _, pipeline.system_exit)
    (λ _, [Some "musician"; Some "band"]) "discogs" true []
  = ([pipeline.invoke pipeline.dead_ids_cli
        [Some "discogs"; Some "musician"; Some "--upload"];
      pipeline.invoke pipeline.links_cli
        [Some "discogs"; Some "musician"; Some "--upload"];
      pipeline.invoke pipeline.bio_cli
        [Some "discogs"; Some "musician"; Some "--upload"];
      pipeline.invoke pipeline.dead_ids_cli
        [Some "discogs"; Some "band"; Some "musician"; Some "--upload"];
      pipeline.invoke pipeline.links_cli
        [Some "discogs"; Some "band"; Some "musician"; Some "--upload"];
      pipeline.invoke pipeline.bio_cli
        [Some "discogs"; Some "band"; Some "musician"; Some "--upload"]],
     ok ()).
Proof.
  apply (validator_arguments (λ _ _, pipeline.system_exit)
           (λ _, [Some "musician"; Some "band"]) "discogs" true []).
  intros function args. by right.
Defined.

Lemma pipeline_steps_witness :
  pipeline.cli (λ _ _, pipeline.system_exit) (λ _, [None; Some "band"])
    "discogs" false true true false None []
  = ([pipeline.invoke pipeline.import_cli [Some "discogs"];
      pipeline.invoke pipeline.validate_links [Some "discogs"];
      pipeline.invoke pipeline.evaluate_cli
        [Some "slp"; Some "discogs"; Some "band"];
      pipeline.invoke pipeline.train_cli
        [Some "slp"; Some "discogs"; Some "band"];
      pipeline.invoke pipeline.classify_cli
        [Some "slp"; Some "discogs"; Some "band"; Some "--no-upload"]],
     ok ()).
Proof.
  apply (pipeline_steps (λ _ _, pipeline.system_exit) (λ _, [None; Some "band"])
           "discogs" false true true false None []).
  intros function args. by right.
Defined.

Lemma pipeline_stops_on_error_witness :
  let call := λ (function : pipeline.command) (_ : list (option string)),
    match function with
    | pipeline.import_cli => pipeline.raises (ValueError "Bad catalog")
    | _ => pipeline.returns
    end in
  pipeline.cli call (λ _, [Some "band"]) "discogs" true true true true None []
  = ([pipeline.invoke pipeline.import_cli [Some "discogs"]],
     raise (ValueError "Bad catalog")).
Proof.
  intros call.
  exact (pipeline_stops_on_error call (λ _, [Some "band"]) "discogs" true true
           true None [] (ValueError "Bad catalog") eq_refl).
Defined.
